(** * pluribus-ansible: the pn_trunk and pn_vlag modules

    A shallow embedding of [ansible/library/pn_trunk.py] and
    [ansible/roles/examples/library/pn_vlag.py].  Both modules have the same
    shape: [AnsibleModule] checks the task arguments against the declared
    [argument_spec] and [required_if], [main] assembles the command line
    [cli] by string concatenation, [shlex.split] cuts it into an argument
    vector, [subprocess.Popen] runs it, and [exit_json] reports.

    Python values are an inductive type, the parameter dictionary
    [module.params] is a [gmap string value], Python exceptions are the
    error side of a small result monad, and the subprocess is an explicit
    state-passing oracle. *)

From Stdlib Require Import ZArith String Ascii List.
From stdpp Require Import base option list strings gmap pretty.



(* ===================================================================== *)
(** ** Python values and exceptions *)
(* ===================================================================== *)

Module Py.

(** The values a module parameter can hold after argument parsing. *)
Inductive value : Type :=
| VNone
| VBool (b : bool)
| VInt (n : Z)
| VStr (s : string).

#[global] Instance value_eq_dec : EqDecision value.
Proof. solve_decision. Defined.

#[global] Instance value_inhabited : Inhabited value := populate VNone.

(** The exceptions that can escape [main]. *)
Inductive exn : Type :=
| TypeError
| ValueError (msg : string)
| OSError.

Inductive result (A : Type) : Type :=
| Ok (a : A)
| Raise (e : exn).
Arguments Ok {A} a.
Arguments Raise {A} e.

#[global] Instance result_ret : MRet result := @Ok.
#[global] Instance result_bind : MBind result := fun A B f r =>
  match r with
  | Ok a => f a
  | Raise e => Raise e
  end.
#[global] Instance result_fmap : FMap result := fun A B f r =>
  match r with
  | Ok a => Ok (f a)
  | Raise e => Raise e
  end.

(** [bool(v)]: the truth value used by [if v:]. *)
Definition truthy (v : value) : bool :=
  match v with
  | VNone => false
  | VBool b => b
  | VInt n => negb (n =? 0)%Z
  | VStr s => negb (String.eqb s "")
  end.

(** [v is True] and [v is False]: identity with the two singletons. *)
Definition is_True (v : value) : bool :=
  match v with VBool true => true | _ => false end.

Definition is_False (v : value) : bool :=
  match v with VBool false => true | _ => false end.

(** [str(v)], as used by the [%s] conversion. *)
Definition str (v : value) : string :=
  match v with
  | VNone => "None"
  | VBool true => "True"
  | VBool false => "False"
  | VInt n => pretty n
  | VStr s => s
  end.

(** [s + v] for a string [s]: concatenation with another string, and
    [TypeError] for every other operand. *)
Definition concat (s : string) (v : value) : result string :=
  match v with
  | VStr t => Ok (s +:+ t)
  | _ => Raise TypeError
  end.

(** [c in chars]. *)
Fixpoint char_in (c : ascii) (chars : string) : bool :=
  match chars with
  | EmptyString => false
  | String d rest => if Ascii.eqb c d then true else char_in c rest
  end.

(** [s.rstrip(chars)]: drop the longest suffix made of characters of
    [chars]. *)
Fixpoint rstrip (chars : string) (s : string) : string :=
  match s with
  | EmptyString => EmptyString
  | String c rest =>
      match rstrip chars rest with
      | EmptyString => if char_in c chars then EmptyString else String c EmptyString
      | t => String c t
      end
  end.

(** [cli += rhs] guarded by [if cond:]. *)
Definition append_if (cond : bool) (rhs : result string) (cli : string)
  : result string :=
  if cond then x ← rhs; Ok (cli +:+ x) else Ok cli.

End Py.
Import Py.

Definition CR : string := String (ascii_of_nat 13) EmptyString.
Definition LF : string := String (ascii_of_nat 10) EmptyString.
Definition TAB : string := String (ascii_of_nat 9) EmptyString.
Definition CRLF : string := CR +:+ LF.

(* ===================================================================== *)
(** ** shlex.split *)
(* ===================================================================== *)

(** [shlex.split(s)] builds a POSIX-mode lexer with [whitespace_split] set
    and no comment characters, and collects its tokens.  [lex] follows
    [shlex.read_token] character by character; its arguments are the
    lexer's [state], the local [escapedstate], the token under
    construction and the local flag [quoted]. *)

Module Shlex.

Inductive state : Type :=
| InSpace                 (* state == ' ' *)
| InWord                  (* state == 'a' *)
| InQuote (q : ascii)     (* state in quotes *)
| InEscape (e : ascii).   (* state in escape *)

Definition whitespace : string := " " +:+ TAB +:+ CR +:+ LF.
Definition quotes : string := "'" +:+ String (ascii_of_nat 34) EmptyString.
Definition escape : string := "\".
Definition escapedquotes : string := String (ascii_of_nat 34) EmptyString.

Definition nonempty (s : string) : bool := negb (String.eqb s "").

Definition push (tok : string) (c : ascii) : string :=
  tok +:+ String c EmptyString.

(** A token is handed out when it is non-empty or was quoted. *)
Definition emit (tok : string) (quoted : bool)
    (rest : result (list string)) : result (list string) :=
  if nonempty tok || quoted then cons tok <$> rest else rest.

Fixpoint lex (st esc : state) (tok : string) (quoted : bool) (s : string)
  : result (list string) :=
  match s with
  | EmptyString =>
      match st with
      | InSpace | InWord => emit tok quoted (Ok [])
      | InQuote _ => Raise (ValueError "No closing quotation")
      | InEscape _ => Raise (ValueError "No escaped character")
      end
  | String c s' =>
      match st with
      | InSpace =>
          if char_in c whitespace then
            if nonempty tok || quoted
            then cons tok <$> lex InSpace InSpace "" false s'
            else lex InSpace esc tok quoted s'
          else if char_in c escape then lex (InEscape c) InWord tok quoted s'
          else if char_in c quotes then lex (InQuote c) esc tok quoted s'
          else lex InWord esc (String c EmptyString) quoted s'
      | InQuote q =>
          if Ascii.eqb c q then lex InWord esc tok true s'
          else if char_in c escape && char_in q escapedquotes
          then lex (InEscape c) (InQuote q) tok true s'
          else lex (InQuote q) esc (push tok c) true s'
      | InEscape e =>
          let tok' :=
            match esc with
            | InQuote q =>
                if negb (Ascii.eqb c e) && negb (Ascii.eqb c q)
                then push tok e else tok
            | _ => tok
            end in
          lex esc esc (push tok' c) quoted s'
      | InWord =>
          if char_in c whitespace then
            if nonempty tok || quoted
            then cons tok <$> lex InSpace InSpace "" false s'
            else lex InSpace esc tok quoted s'
          else if char_in c quotes then lex (InQuote c) esc tok quoted s'
          else if char_in c escape then lex (InEscape c) InWord tok quoted s'
          else lex InWord esc (push tok c) quoted s'
      end
  end.

Definition split (s : string) : result (list string) :=
  lex InSpace InSpace "" false s.

(** A character that the lexer copies into the current word. *)
Definition plain_char (c : ascii) : bool :=
  negb (char_in c whitespace || char_in c quotes || char_in c escape).

Fixpoint plain (s : string) : bool :=
  match s with
  | EmptyString => true
  | String c rest => plain_char c && plain rest
  end.

(** A non-empty run of plain characters: one shell word. *)
Definition word (s : string) : bool := nonempty s && plain s.

End Shlex.


(* ===================================================================== *)
(** ** AnsibleModule: argument checking *)
(* ===================================================================== *)

(** The checks [AnsibleModule.__init__] runs for the keywords the two
    modules use ([required], [type], [choices], [default], [aliases] and
    [required_if]), in the constructor's order.  The task arguments are
    taken as typed values, that is after the conversion the framework
    applies for the declared [type]; a value of another type is rejected. *)

Module Ansible.

Inductive ptype : Type := TStr | TInt | TBool.

Record argspec : Type := {
  required : bool;
  type : ptype;
  choices : option (list string);
  default : value;
  aliases : list string
}.

(** [dict(type=t)] and its variants. *)
Definition opt (t : ptype) : argspec :=
  {| required := false; type := t; choices := None; default := VNone;
     aliases := [] |}.
Definition req (a : argspec) : argspec :=
  {| required := true; type := type a; choices := choices a;
     default := default a; aliases := aliases a |}.
Definition among (cs : list string) (a : argspec) : argspec :=
  {| required := required a; type := type a; choices := Some cs;
     default := default a; aliases := aliases a |}.
Definition dflt (v : value) (a : argspec) : argspec :=
  {| required := required a; type := type a; choices := choices a;
     default := v; aliases := aliases a |}.
Definition alias (names : list string) (a : argspec) : argspec :=
  {| required := required a; type := type a; choices := choices a;
     default := default a; aliases := names |}.

(** One [required_if] entry: [key, val, requirements]. *)
Definition rule : Type := string * string * list string.

Inductive checked : Type :=
| Params (params : gmap string value)
| FailJson (msg : string).

Definition join (sep : string) (names : list string) : string :=
  String.concat sep names.

(** [_handle_aliases]: a value given under an alias is stored under the
    parameter's own name. *)
Definition handle_aliases (spec : list (string * argspec))
    (params : gmap string value) : gmap string value :=
  foldl (fun p '(k, a) =>
           foldl (fun p al =>
                    match p !! al with
                    | Some x => <[k := x]> p
                    | None => p
                    end) p (aliases a))
        params spec.

(** What a task gives for a parameter, under its name or an alias. *)
Definition given (spec : list (string * argspec))
    (args : gmap string value) (k : string) : option value :=
  handle_aliases spec args !! k.

Definition legal_inputs (spec : list (string * argspec)) : list string :=
  flat_map (fun '(k, a) => k :: aliases a) spec.

(** [_check_arguments]: the names that are neither parameters nor
    aliases. *)
Definition unsupported (spec : list (string * argspec))
    (params : gmap string value) : list string :=
  List.filter (fun k => negb (bool_decide (k ∈ legal_inputs spec)))
    (map_to_list params).*1.

(** [_set_defaults(pre)]. *)
Definition set_defaults (pre : bool) (spec : list (string * argspec))
    (params : gmap string value) : gmap string value :=
  foldl (fun p '(k, a) =>
           match p !! k with
           | Some _ => p
           | None =>
               if pre && bool_decide (default a = VNone) then p
               else <[k := default a]> p
           end)
        params spec.

(** [_check_required_arguments]. *)
Definition missing_required (spec : list (string * argspec))
    (params : gmap string value) : list string :=
  (List.filter (fun '(k, a) => required a && bool_decide (params !! k = None))
     spec).*1.

Definition has_type (t : ptype) (v : value) : bool :=
  match t, v with
  | _, VNone => true
  | TStr, VStr _ => true
  | TInt, VInt _ => true
  | TBool, VBool _ => true
  | _, _ => false
  end.

(** [_check_argument_types]. *)
Definition ill_typed (spec : list (string * argspec))
    (params : gmap string value) : list string :=
  (List.filter (fun '(k, a) =>
                  match params !! k with
                  | Some v => negb (has_type (type a) v)
                  | None => false
                  end) spec).*1.

(** The strings among [BOOLEANS_TRUE] and [BOOLEANS_FALSE]. *)
Definition BOOLEANS_TRUE : list string :=
  ["y"; "yes"; "on"; "1"; "true"; "t"].
Definition BOOLEANS_FALSE : list string :=
  ["n"; "no"; "off"; "0"; "false"; "f"].

(** [booleans.intersection(choices)]. *)
Definition overlap (booleans cs : list string) : list string :=
  List.filter (fun b => bool_decide (b ∈ cs)) booleans.

(** [_check_argument_values] on one value that is not among the choices:
    the string [False] becomes the one choice that is a word for false, and
    the string [True] the one choice that is a word for true, when there is
    exactly one such choice (YAML reads an unquoted [off] or [on] as a
    boolean, and the conversion to [str] makes the strings [False] and
    [True] of them). *)
Definition lenient (cs : list string) (v : value) : value :=
  if bool_decide (v ∈ VStr <$> cs) then v
  else
    let v := if bool_decide (v = VStr "False")
             then match overlap BOOLEANS_FALSE cs with
                  | [c] => VStr c
                  | _ => v
                  end
             else v in
    if bool_decide (v = VStr "True")
    then match overlap BOOLEANS_TRUE cs with
         | [c] => VStr c
         | _ => v
         end
    else v.

(** [_check_argument_values], the values it stores back in the
    parameters ... *)
Definition lenient_choices (spec : list (string * argspec))
    (params : gmap string value) : gmap string value :=
  foldl (fun p '(k, a) =>
           match choices a, p !! k with
           | Some cs, Some v => <[k := lenient cs v]> p
           | _, _ => p
           end)
        params spec.

(** ... and the parameters whose value is then still not among the
    choices. *)
Definition bad_choice (spec : list (string * argspec))
    (params : gmap string value) : list string :=
  (List.filter (fun '(k, a) =>
                  match choices a, params !! k with
                  | Some cs, Some v => negb (bool_decide (v ∈ VStr <$> cs))
                  | _, _ => false
                  end) spec).*1.

(** [_check_required_if]: the requirements of the entries whose key has
    the entry's value and that are not among the parameters. *)
Definition missing_if (rules : list rule) (params : gmap string value)
  : list (string * string * list string) :=
  List.filter (fun '(_, _, missing) => negb (bool_decide (missing = [])))
    (map (fun '(key, val, requirements) =>
            (key, val,
             if bool_decide (params !! key = Some (VStr val))
             then List.filter (fun r => bool_decide (params !! r = None))
                    requirements
             else []))
         rules).

Definition AnsibleModule (argument_spec : list (string * argspec))
    (required_if : list rule) (args : gmap string value) : checked :=
  let params := handle_aliases argument_spec args in
  match unsupported argument_spec params with
  | k :: _ => FailJson ("unsupported parameter for module: " +:+ k)
  | [] =>
  let params := set_defaults true argument_spec params in
  match missing_required argument_spec params with
  | (_ :: _) as ks => FailJson ("missing required arguments: " +:+ join "," ks)
  | [] =>
  match ill_typed argument_spec params with
  | k :: _ => FailJson ("argument " +:+ k +:+ " is of the wrong type")
  | [] =>
  let params := lenient_choices argument_spec params in
  match bad_choice argument_spec params with
  | k :: _ => FailJson ("value of " +:+ k +:+ " must be one of its choices")
  | [] =>
  match missing_if required_if params with
  | (key, val, ks) :: _ =>
      FailJson (key +:+ " is " +:+ val +:+
                " but the following are missing: " +:+ join "," ks)
  | [] => Params (set_defaults false argument_spec params)
  end end end end end.

End Ansible.
Import Ansible.

(* ===================================================================== *)
(** ** The subprocess and the module's outcome *)
(* ===================================================================== *)

(** What [Popen(...).communicate()] hands back: the two captured streams;
    the exit status stays in the process object and is never read. *)
Record completed : Type := {
  stdout : string;
  stderr : string;
  returncode : Z
}.

(** How a run of [main] ends. *)
Inductive outcome : Type :=
| Failed (msg : string)               (* fail_json from the constructor *)
| Traceback (e : exn)                 (* an exception escapes main *)
| ExitJson (kwargs : gmap string value).

(** A run of [main]: the argument vectors handed to [Popen], how the run
    ended, and the state of the outside world afterwards. *)
Record run (world : Type) : Type := {
  popen_calls : list (list string);
  ending : outcome;
  after : world
}.
Arguments popen_calls {world} r.
Arguments ending {world} r.
Arguments after {world} r.

(* ===================================================================== *)
(** ** Statements as a table *)
(* ===================================================================== *)

(** After the operation clause, [main] is a run of statements that each
    read one parameter and append text to [cli].  [segments] evaluates such
    a run given as a table of parameter names and the text appended for a
    value; the [build_table] lemmas below prove that each [build] equals the
    evaluation of its table. *)

Module Table.

(** [if v: cli += flag + v]. *)
Definition text_field (flag : string) (v : value) : result string :=
  if truthy v then concat flag v else Ok "".

(** [if v is True: cli += yes] followed by [if v is False: cli += no]. *)
Definition bool_field (yes no : string) (v : value) : result string :=
  x ← (if is_True v then Ok yes else Ok "");
  y ← (if is_False v then Ok no else Ok "");
  Ok (x +:+ y).

Fixpoint segments (tbl : list (string * (value → result string)))
    (params : gmap string value) : result (list string) :=
  match tbl with
  | [] => Ok []
  | (k, seg) :: rest =>
      s ← seg (params !!! k);
      ss ← segments rest params;
      Ok (s :: ss)
  end.

Definition flatten (ss : list string) : string :=
  foldr String.append "" ss.

(** Where a run of statements ends: the text accumulated so far followed
    by what the remaining statements append. *)
Definition finish (acc : string)
    (tbl : list (string * (value → result string)))
    (params : gmap string value) : result string :=
  ss ← segments tbl params; Ok (acc +:+ flatten ss).

(** Text that is empty or starts with a blank. *)
Definition spaced (s : string) : Prop :=
  s = "" ∨ ∃ s', s = " " +:+ s'.

End Table.
Import Table.

(* ===================================================================== *)
(** ** pn_trunk *)
(* ===================================================================== *)

Module Trunk.

Definition argument_spec : list (string * argspec) :=
  [ ("pn_cliusername", req (opt TStr));
    ("pn_clipassword", req (opt TStr));
    ("pn_cliswitch", opt TStr);
    ("pn_command",
      among ["trunk-create"; "trunk-delete"; "trunk-modify"] (req (opt TStr)));
    ("pn_name", req (opt TStr));
    ("pn_ports", opt TStr);
    ("pn_speed",
      among ["disable"; "10m"; "100m"; "1g"; "2.5g"; "10g"; "40g"] (opt TStr));
    ("pn_egress_rate_limit", opt TStr);
    ("pn_jumbo", opt TBool);
    ("pn_lacp_mode", among ["off"; "passive"; "active"] (opt TStr));
    ("pn_lacp_priority", opt TInt);
    ("pn_lacp_timeout", opt TStr);
    ("pn_lacp_fallback", among ["bundle"; "individual"] (opt TStr));
    ("pn_lacp_fallback_timeout", opt TStr);
    ("pn_edge_switch", opt TBool);
    ("pn_pause", opt TBool);
    ("pn_description", opt TStr);
    ("pn_loopback", opt TBool);
    ("pn_mirror_receive", opt TBool);
    ("pn_unknown_ucast_level", opt TStr);
    ("pn_unknown_mcast_level", opt TStr);
    ("pn_broadcast_level", opt TStr);
    ("pn_port_macaddr", opt TStr);
    ("pn_loopvlans", opt TStr);
    ("pn_routing", opt TBool);
    ("pn_host", opt TBool);
    ("pn_quiet", dflt (VBool true) (opt TBool)) ].

Definition required_if : list rule :=
  [ ("pn_command", "trunk-create", ["pn_name"; "pn_ports"]);
    ("pn_command", "trunk-delete", ["pn_name"]);
    ("pn_command", "trunk-modify", ["pn_name"]) ].

(** Building the CLI command string. *)
Definition build (params : gmap string value) : result string :=
  let cliusername := params !!! "pn_cliusername" in
  let clipassword := params !!! "pn_clipassword" in
  let cliswitch := params !!! "pn_cliswitch" in
  let command := params !!! "pn_command" in
  let name := params !!! "pn_name" in
  let ports := params !!! "pn_ports" in
  let speed := params !!! "pn_speed" in
  let egress_rate_limit := params !!! "pn_egress_rate_limit" in
  let jumbo := params !!! "pn_jumbo" in
  let lacp_mode := params !!! "pn_lacp_mode" in
  let lacp_priority := params !!! "pn_lacp_priority" in
  let lacp_timeout := params !!! "pn_lacp_timeout" in
  let lacp_fallback := params !!! "pn_lacp_fallback" in
  let lacp_fallback_timeout := params !!! "pn_lacp_fallback_timeout" in
  let edge_switch := params !!! "pn_edge_switch" in
  let pause := params !!! "pn_pause" in
  let description := params !!! "pn_description" in
  let loopback := params !!! "pn_loopback" in
  let mirror_receive := params !!! "pn_mirror_receive" in
  let unknown_ucast_level := params !!! "pn_unknown_ucast_level" in
  let unknown_mcast_level := params !!! "pn_unknown_mcast_level" in
  let broadcast_level := params !!! "pn_broadcast_level" in
  let port_macaddr := params !!! "pn_port_macaddr" in
  let loopvlans := params !!! "pn_loopvlans" in
  let routing := params !!! "pn_routing" in
  let host := params !!! "pn_host" in
  let quiet := params !!! "pn_quiet" in
  let cli := "/usr/bin/cli" in
  cli ← append_if (is_True quiet) (Ok " --quiet ") cli;
  let cli :=
    cli +:+ (" --user " +:+ str cliusername +:+ ":" +:+ str clipassword +:+ " ") in
  cli ← append_if (truthy cliswitch)
          (if bool_decide (cliswitch = VStr "local")
           then Ok " switch-local "
           else concat " switch " cliswitch) cli;
  let cli := cli +:+ (" " +:+ str command +:+ " name " +:+ str name +:+ " ") in
  cli ← append_if (truthy ports) (concat " ports " ports) cli;
  cli ← append_if (truthy speed) (concat " speed " speed) cli;
  cli ← append_if (truthy egress_rate_limit)
          (concat " egress-rate-limit " egress_rate_limit) cli;
  cli ← append_if (is_True jumbo) (Ok " jumbo ") cli;
  cli ← append_if (is_False jumbo) (Ok " no-jumbo ") cli;
  cli ← append_if (truthy lacp_mode) (concat " lacp-mode " lacp_mode) cli;
  cli ← append_if (truthy lacp_priority)
          (concat " lacp-priority " lacp_priority) cli;
  cli ← append_if (truthy lacp_timeout)
          (concat " lacp-timeout " lacp_timeout) cli;
  cli ← append_if (truthy lacp_fallback)
          (concat " lacp-fallback " lacp_fallback) cli;
  cli ← append_if (truthy lacp_fallback_timeout)
          (concat " lacp-fallback-timeout " lacp_fallback_timeout) cli;
  cli ← append_if (is_True edge_switch) (Ok " edge-switch ") cli;
  cli ← append_if (is_False edge_switch) (Ok " no-edge-switch ") cli;
  cli ← append_if (is_True pause) (Ok " pause ") cli;
  cli ← append_if (is_False pause) (Ok " no-pause ") cli;
  cli ← append_if (truthy description)
          (concat " description " description) cli;
  cli ← append_if (is_True loopback) (Ok " loopback ") cli;
  cli ← append_if (is_False loopback) (Ok " no-loopback ") cli;
  cli ← append_if (is_True mirror_receive) (Ok " mirror-receive-only ") cli;
  cli ← append_if (is_False mirror_receive)
          (Ok " no-mirror-receive-only ") cli;
  cli ← append_if (truthy unknown_ucast_level)
          (concat " unknown-ucast-level " unknown_ucast_level) cli;
  cli ← append_if (truthy unknown_mcast_level)
          (concat " unknown-mcast-level " unknown_mcast_level) cli;
  cli ← append_if (truthy broadcast_level)
          (concat " broadcast-level " broadcast_level) cli;
  cli ← append_if (truthy port_macaddr)
          (concat " port-mac-address " port_macaddr) cli;
  cli ← append_if (truthy loopvlans) (concat " loopvlans " loopvlans) cli;
  cli ← append_if (is_True routing) (Ok " routing ") cli;
  cli ← append_if (is_False routing) (Ok " no-routing ") cli;
  cli ← append_if (is_True host) (Ok " host-enable ") cli;
  cli ← append_if (is_False host) (Ok " host-disable ") cli;
  Ok cli.

(** The pieces of [cli] up to the operation clause. *)
Definition credentials (params : gmap string value) : string :=
  "/usr/bin/cli" +:+
  (if is_True (params !!! "pn_quiet") then " --quiet " else "") +:+
  " --user " +:+ str (params !!! "pn_cliusername") +:+ ":" +:+
  str (params !!! "pn_clipassword") +:+ " ".

Definition switch_clause (cliswitch : value) : result string :=
  if truthy cliswitch then
    if bool_decide (cliswitch = VStr "local")
    then Ok " switch-local "
    else concat " switch " cliswitch
  else Ok "".

Definition operation (params : gmap string value) : string :=
  " " +:+ str (params !!! "pn_command") +:+ " name " +:+
  str (params !!! "pn_name") +:+ " ".

(** Everything up to and including the operation clause. *)
Definition head (params : gmap string value) : result string :=
  sw ← switch_clause (params !!! "pn_cliswitch");
  Ok (credentials params +:+ sw +:+ operation params).

(** The statements after the operation clause. *)
Definition fields : list (string * (value → result string)) :=
  [ ("pn_ports", text_field " ports ");
    ("pn_speed", text_field " speed ");
    ("pn_egress_rate_limit", text_field " egress-rate-limit ");
    ("pn_jumbo", bool_field " jumbo " " no-jumbo ");
    ("pn_lacp_mode", text_field " lacp-mode ");
    ("pn_lacp_priority", text_field " lacp-priority ");
    ("pn_lacp_timeout", text_field " lacp-timeout ");
    ("pn_lacp_fallback", text_field " lacp-fallback ");
    ("pn_lacp_fallback_timeout", text_field " lacp-fallback-timeout ");
    ("pn_edge_switch", bool_field " edge-switch " " no-edge-switch ");
    ("pn_pause", bool_field " pause " " no-pause ");
    ("pn_description", text_field " description ");
    ("pn_loopback", bool_field " loopback " " no-loopback ");
    ("pn_mirror_receive",
      bool_field " mirror-receive-only " " no-mirror-receive-only ");
    ("pn_unknown_ucast_level", text_field " unknown-ucast-level ");
    ("pn_unknown_mcast_level", text_field " unknown-mcast-level ");
    ("pn_broadcast_level", text_field " broadcast-level ");
    ("pn_port_macaddr", text_field " port-mac-address ");
    ("pn_loopvlans", text_field " loopvlans ");
    ("pn_routing", bool_field " routing " " no-routing ");
    ("pn_host", bool_field " host-enable " " host-disable ") ].

(** Response in JSON format: the keyword arguments of [exit_json]. *)
Definition respond (cli out err : string) : gmap string value :=
  if truthy (VStr err) then
    {[ "command" := VStr cli;
       "stderr" := VStr (rstrip CRLF err);
       "changed" := VBool false ]}
  else
    {[ "command" := VStr cli;
       "stdout" := VStr (rstrip CRLF out);
       "changed" := VBool true ]}.

Section Main.
Context {world : Type}.
Variable Popen : list string → world → result completed * world.

Definition main (args : gmap string value) (w : world) : run world :=
  match AnsibleModule argument_spec required_if args with
  | FailJson msg => {| popen_calls := []; ending := Failed msg; after := w |}
  | Params params =>
      match build params with
      | Raise e => {| popen_calls := []; ending := Traceback e; after := w |}
      | Ok cli =>
          match Shlex.split cli with
          | Raise e =>
              {| popen_calls := []; ending := Traceback e; after := w |}
          | Ok trunkcmd =>
              match Popen trunkcmd w with
              | (Raise e, w') =>
                  {| popen_calls := [trunkcmd]; ending := Traceback e;
                     after := w' |}
              | (Ok response, w') =>
                  {| popen_calls := [trunkcmd];
                     ending := ExitJson (respond cli (stdout response)
                                           (stderr response));
                     after := w' |}
              end
          end
      end
  end.
End Main.

End Trunk.

(* ===================================================================== *)
(** ** pn_vlag *)
(* ===================================================================== *)

Module Vlag.

Definition argument_spec : list (string * argspec) :=
  [ ("pn_cliusername", alias ["username"] (req (opt TStr)));
    ("pn_clipassword", alias ["password"] (req (opt TStr)));
    ("pn_cliswitch", alias ["switch"] (opt TStr));
    ("pn_command",
      alias ["command"]
        (among ["vlag-create"; "vlag-delete"; "vlag-modify"] (req (opt TStr))));
    ("pn_name", alias ["name"] (req (opt TStr)));
    ("pn_port", alias ["port"] (opt TStr));
    ("pn_peer_port", alias ["peer_port"] (opt TStr));
    ("pn_mode",
      alias ["mode"] (among ["active-standby"; "active-active"] (opt TStr)));
    ("pn_peer_switch", alias ["peer_switch"] (opt TStr));
    ("pn_failover_action",
      alias ["failover_action"] (among ["move"; "ignore"] (opt TStr)));
    ("pn_lacp_mode",
      alias ["lacp_mode"] (among ["off"; "passive"; "active"] (opt TStr)));
    ("pn_lacp_timeout",
      alias ["lacp_timeout"] (among ["slow"; "fast"] (opt TStr)));
    ("pn_lacp_fallback",
      alias ["lacp_fallback"] (among ["individual"; "bundled"] (opt TStr)));
    ("pn_lacp_fallback_timeout",
      alias ["lacp_fallback_timeout"] (opt TStr));
    ("pn_quiet", dflt (VBool true) (opt TBool)) ].

Definition required_if : list rule :=
  [ ("pn_command", "vlag-create", ["pn_name"; "pn_port"; "pn_peer_port"]);
    ("pn_command", "vlag-delete", ["pn_name"]);
    ("pn_command", "vlag-modify", ["pn_name"]) ].

(** Building the CLI command string. *)
Definition build (params : gmap string value) : result string :=
  let cliusername := params !!! "pn_cliusername" in
  let clipassword := params !!! "pn_clipassword" in
  let cliswitch := params !!! "pn_cliswitch" in
  let command := params !!! "pn_command" in
  let name := params !!! "pn_name" in
  let port := params !!! "pn_port" in
  let peer_port := params !!! "pn_peer_port" in
  let mode := params !!! "pn_mode" in
  let peer_switch := params !!! "pn_peer_switch" in
  let failover_action := params !!! "pn_failover_action" in
  let lacp_mode := params !!! "pn_lacp_mode" in
  let lacp_timeout := params !!! "pn_lacp_timeout" in
  let lacp_fallback := params !!! "pn_lacp_fallback" in
  let lacp_fallback_timeout := params !!! "pn_lacp_fallback_timeout" in
  let quiet := params !!! "pn_quiet" in
  cli ← (if is_True quiet then
           a ← concat "/usr/bin/cli --quiet --user " cliusername;
           b ← concat (a +:+ ":") clipassword;
           Ok (b +:+ " ")
         else
           a ← concat "/usr/bin/cli --user " cliusername;
           b ← concat (a +:+ ":") clipassword;
           Ok (b +:+ " "));
  cli ← append_if (truthy cliswitch) (concat " switch " cliswitch) cli;
  rhs ← (a ← concat " " command; concat (a +:+ " name ") name);
  let cli := cli +:+ rhs in
  cli ← append_if (truthy port) (concat " port " port) cli;
  cli ← append_if (truthy peer_port) (concat " peer-port " peer_port) cli;
  cli ← append_if (truthy mode) (concat " mode " mode) cli;
  cli ← append_if (truthy peer_switch)
          (concat " peer-switch" peer_switch) cli;
  cli ← append_if (truthy failover_action)
          (a ← concat " failover-" failover_action; Ok (a +:+ "-L2 ")) cli;
  cli ← append_if (truthy lacp_mode) (concat " lacp-mode " lacp_mode) cli;
  cli ← append_if (truthy lacp_timeout)
          (concat " lacp-timeout " lacp_timeout) cli;
  cli ← append_if (truthy lacp_fallback)
          (concat " lacp-fallback " lacp_fallback) cli;
  cli ← append_if (truthy lacp_fallback_timeout)
          (concat " lacp-fallback-timeout " lacp_fallback_timeout) cli;
  Ok cli.

(** The pieces of [cli] up to the operation clause. *)
Definition credentials (params : gmap string value) : result string :=
  a ← concat (if is_True (params !!! "pn_quiet")
              then "/usr/bin/cli --quiet --user "
              else "/usr/bin/cli --user ") (params !!! "pn_cliusername");
  b ← concat (a +:+ ":") (params !!! "pn_clipassword");
  Ok (b +:+ " ").

Definition switch_clause (cliswitch : value) : result string :=
  text_field " switch " cliswitch.

Definition operation (params : gmap string value) : result string :=
  a ← concat " " (params !!! "pn_command");
  concat (a +:+ " name ") (params !!! "pn_name").

(** Everything up to and including the operation clause. *)
Definition head (params : gmap string value) : result string :=
  cred ← credentials params;
  sw ← switch_clause (params !!! "pn_cliswitch");
  op ← operation params;
  Ok (cred +:+ sw +:+ op).

Definition failover_field (v : value) : result string :=
  if truthy v then a ← concat " failover-" v; Ok (a +:+ "-L2 ") else Ok "".

(** The statements after the operation clause. *)
Definition fields : list (string * (value → result string)) :=
  [ ("pn_port", text_field " port ");
    ("pn_peer_port", text_field " peer-port ");
    ("pn_mode", text_field " mode ");
    ("pn_peer_switch", text_field " peer-switch");
    ("pn_failover_action", failover_field);
    ("pn_lacp_mode", text_field " lacp-mode ");
    ("pn_lacp_timeout", text_field " lacp-timeout ");
    ("pn_lacp_fallback", text_field " lacp-fallback ");
    ("pn_lacp_fallback_timeout", text_field " lacp-fallback-timeout ") ].

(** Response in JSON format: the keyword arguments of [exit_json]. *)
Definition respond (cli out err : string) : gmap string value :=
  if truthy (VStr err) then
    {[ "command" := VStr cli;
       "stderr" := VStr (rstrip CRLF err);
       "rc" := VInt 1;
       "changed" := VBool false ]}
  else
    {[ "command" := VStr cli;
       "stdout" := VStr (rstrip CRLF out);
       "rc" := VInt 0;
       "changed" := VBool true ]}.

Section Main.
Context {world : Type}.
Variable Popen : list string → world → result completed * world.

Definition main (args : gmap string value) (w : world) : run world :=
  match AnsibleModule argument_spec required_if args with
  | FailJson msg => {| popen_calls := []; ending := Failed msg; after := w |}
  | Params params =>
      match build params with
      | Raise e => {| popen_calls := []; ending := Traceback e; after := w |}
      | Ok cli =>
          match Shlex.split cli with
          | Raise e =>
              {| popen_calls := []; ending := Traceback e; after := w |}
          | Ok vlagcmd =>
              match Popen vlagcmd w with
              | (Raise e, w') =>
                  {| popen_calls := [vlagcmd]; ending := Traceback e;
                     after := w' |}
              | (Ok response, w') =>
                  {| popen_calls := [vlagcmd];
                     ending := ExitJson (respond cli (stdout response)
                                           (stderr response));
                     after := w' |}
              end
          end
      end
  end.
End Main.

End Vlag.


(* ===================================================================== *)
(** ** Parameter classes, the documented tables and the examples *)
(* ===================================================================== *)

#[global] Instance ptype_eq_dec : EqDecision ptype.
Proof. solve_decision. Defined.

(** The boolean parameters without a default: [None] when not given. *)
Definition tri_state_params (spec : list (string * argspec)) : list string :=
  (List.filter (fun '(_, a) =>
                  bool_decide (type a = TBool) &&
                  bool_decide (default a = VNone)) spec).*1.

(** The parameters that need not be given and hold a string or a number. *)
Definition optional_valued_params (spec : list (string * argspec))
  : list string :=
  (List.filter (fun '(_, a) =>
                  negb (required a) &&
                  negb (bool_decide (type a = TBool))) spec).*1.

(** The interface description's table of trunk booleans: parameter, token
    for true, token for false. *)
Definition spec_tri_bool_tokens : list (string * string * string) :=
  [ ("pn_jumbo", "jumbo", "no-jumbo");
    ("pn_edge_switch", "edge-switch", "no-edge-switch");
    ("pn_pause", "pause", "no-pause");
    ("pn_loopback", "loopback", "no-loopback");
    ("pn_mirror_receive", "mirror-receive-only", "no-mirror-receive-only");
    ("pn_routing", "routing", "no-routing");
    ("pn_host", "host-enable", "host-disable") ].

(** The tasks of the modules' EXAMPLES sections. *)
Definition example_create_trunk : gmap string value :=
  {[ "pn_cliusername" := VStr "admin";
     "pn_clipassword" := VStr "admin";
     "pn_command" := VStr "trunk-create";
     "pn_name" := VStr "spine-to-leaf";
     "pn_ports" := VStr "11,12,13,14" ]}.

Definition example_delete_trunk : gmap string value :=
  {[ "pn_cliusername" := VStr "admin";
     "pn_clipassword" := VStr "admin";
     "pn_command" := VStr "trunk-delete";
     "pn_name" := VStr "spine-to-leaf" ]}.

Definition example_create_vlag : gmap string value :=
  {[ "pn_cliusername" := VStr "admin";
     "pn_clipassword" := VStr "admin";
     "pn_command" := VStr "vlag-create";
     "pn_name" := VStr "spine-to-leaf";
     "pn_port" := VStr "spine01-to-leaf";
     "pn_peer_port" := VStr "spine02-to-leaf";
     "pn_peer_switch" := VStr "spine02";
     "pn_mode" := VStr "active-active" ]}.

Definition example_delete_vlag : gmap string value :=
  {[ "pn_cliusername" := VStr "admin";
     "pn_clipassword" := VStr "admin";
     "pn_command" := VStr "vlag-delete";
     "pn_name" := VStr "spine-to-leaf" ]}.

(** A trunk-create task that gives the credentials, the name and the
    ports, and nothing else. *)
Definition create_trunk_request (u pw n ports : string) : gmap string value :=
  {[ "pn_cliusername" := VStr u;
     "pn_clipassword" := VStr pw;
     "pn_command" := VStr "trunk-create";
     "pn_name" := VStr n;
     "pn_ports" := VStr ports ]}.

(** The delete examples with the target switch ["local"]. *)
Definition delete_trunk_on_local : gmap string value :=
  <["pn_cliswitch" := VStr "local"]> example_delete_trunk.

Definition delete_vlag_on_local : gmap string value :=
  <["pn_cliswitch" := VStr "local"]> example_delete_vlag.

(** A trunk modification that sets the LACP priority. *)
Definition modify_trunk_priority : gmap string value :=
  {[ "pn_cliusername" := VStr "admin";
     "pn_clipassword" := VStr "admin";
     "pn_command" := VStr "trunk-modify";
     "pn_name" := VStr "spine-to-leaf";
     "pn_lacp_priority" := VInt 100 ]}.

(** A report with [changed=False] is a failure report. *)
Definition is_failure (kwargs : gmap string value) : Prop :=
  kwargs !! "changed" = Some (VBool false).

(** A subprocess interface whose processes all exit with status 0. *)
Definition forget_status {world : Type}
    (Popen : list string → world → result completed * world)
    (argv : list string) (w : world) : result completed * world :=
  match Popen argv w with
  | (Ok c, w') =>
      (Ok {| stdout := stdout c; stderr := stderr c; returncode := 0 |}, w')
  | (Raise e, w') => (Raise e, w')
  end.

(** The string-valued statements of the two [main]s: the parameter and
    the word written in front of its value. *)
Definition trunk_text_flags : list (string * string) :=
  [ ("pn_ports", "ports");
    ("pn_speed", "speed");
    ("pn_egress_rate_limit", "egress-rate-limit");
    ("pn_lacp_mode", "lacp-mode");
    ("pn_lacp_timeout", "lacp-timeout");
    ("pn_lacp_fallback", "lacp-fallback");
    ("pn_lacp_fallback_timeout", "lacp-fallback-timeout");
    ("pn_description", "description");
    ("pn_unknown_ucast_level", "unknown-ucast-level");
    ("pn_unknown_mcast_level", "unknown-mcast-level");
    ("pn_broadcast_level", "broadcast-level");
    ("pn_port_macaddr", "port-mac-address");
    ("pn_loopvlans", "loopvlans") ].

Definition vlag_text_flags : list (string * string) :=
  [ ("pn_port", "port");
    ("pn_peer_port", "peer-port");
    ("pn_mode", "mode");
    ("pn_lacp_mode", "lacp-mode");
    ("pn_lacp_timeout", "lacp-timeout");
    ("pn_lacp_fallback", "lacp-fallback");
    ("pn_lacp_fallback_timeout", "lacp-fallback-timeout") ].

(** Every character of [s] is one of [chars]. *)
Fixpoint all_in (chars : string) (s : string) : bool :=
  match s with
  | EmptyString => true
  | String c rest => char_in c chars && all_in chars rest
  end.

(** [s.endswith(c)] for some character [c] of [chars]. *)
Fixpoint ends_in (chars : string) (s : string) : bool :=
  match s with
  | EmptyString => false
  | String c EmptyString => char_in c chars
  | String _ rest => ends_in chars rest
  end.

(** Every declared parameter holds [None] or a value of its declared
    type. *)
Definition well_typed (spec : list (string * argspec))
    (params : gmap string value) : Prop :=
  ∀ k a, (k, a) ∈ spec → has_type (type a) (params !!! k) = true.

(** A vlag-create task that gives the credentials, the name and the two
    ports, and nothing else. *)
Definition create_vlag_request (u pw n port peer : string)
  : gmap string value :=
  {[ "pn_cliusername" := VStr u;
     "pn_clipassword" := VStr pw;
     "pn_command" := VStr "vlag-create";
     "pn_name" := VStr n;
     "pn_port" := VStr port;
     "pn_peer_port" := VStr peer ]}.

(** A subprocess that prints [ok] and nothing on standard error. *)
Definition prints_ok (_ : list string) (w : unit) : result completed * unit :=
  (Ok {| stdout := "ok"; stderr := ""; returncode := 0 |}, w).

(** [module.params] for a task that passes the constructor's checks. *)
Definition params_of (r : checked) : gmap string value :=
  match r with
  | Params params => params
  | FailJson _ => ∅
  end.

Definition trunk_params (args : gmap string value) : gmap string value :=
  params_of (AnsibleModule Trunk.argument_spec Trunk.required_if args).

Definition vlag_params (args : gmap string value) : gmap string value :=
  params_of (AnsibleModule Vlag.argument_spec Vlag.required_if args).

(* ===================================================================== *)
(** ** Strings and the result monad *)
(* ===================================================================== *)

Lemma append_cons (x : ascii) (a b : string) :
  String x a +:+ b = String x (a +:+ b).
Proof. reflexivity. Qed.

Lemma append_empty_l (a : string) : "" +:+ a = a.
Proof. reflexivity. Qed.

Lemma append_assoc (a b c : string) : (a +:+ b) +:+ c = a +:+ (b +:+ c).
Proof.
  induction a as [|x a IH]; [done|]. rewrite !append_cons. by f_equal.
Qed.

Lemma append_empty_r (a : string) : a +:+ "" = a.
Proof.
  induction a as [|x a IH]; [done|]. rewrite append_cons. by f_equal.
Qed.

Lemma fmap_app_nil (r : result (list string)) : app [] <$> r = r.
Proof. by destruct r. Qed.

Lemma fmap_cons_app (t : string) (ts : list string) (r : result (list string)) :
  cons t <$> (app ts <$> r) = app (t :: ts) <$> r.
Proof. by destruct r. Qed.

Lemma fmap_app_app (ts us : list string) (r : result (list string)) :
  app ts <$> (app us <$> r) = app (ts ++ us) <$> r.
Proof. destruct r; simpl; [by rewrite (assoc_L app) | done]. Qed.

(* ===================================================================== *)
(** ** Facts about shlex.split *)
(* ===================================================================== *)

Section ShlexFacts.
Import Shlex.

Lemma nonempty_true_iff (s : string) : nonempty s = true ↔ s ≠ "".
Proof.
  unfold nonempty. rewrite negb_true_iff. apply String.eqb_neq.
Qed.

Lemma nonempty_false (s : string) : nonempty s = false → s = "".
Proof.
  unfold nonempty. rewrite negb_false_iff. apply String.eqb_eq.
Qed.

(** The saved [escapedstate] is only read in an escape state. *)
Lemma lex_escapedstate s : ∀ st e1 e2 tok q,
  (∀ e, st ≠ InEscape e) →
  lex st e1 tok q s = lex st e2 tok q s.
Proof.
  induction s as [|c s IH]; intros st e1 e2 tok q Hst.
  - by destruct st.
  - destruct st as [| |qc|e]; simpl.
    + repeat case_match; try done; apply IH; congruence.
    + repeat case_match; try done; apply IH; congruence.
    + repeat case_match; try done; apply IH; congruence.
    + by destruct (Hst e).
Qed.

(** Tokens cut from [s] are not affected by what follows a blank. *)
Lemma lex_app_space s : ∀ st esc tok q ts r,
  lex st esc tok q s = Ok ts →
  lex st esc tok q (s +:+ " " +:+ r) = app ts <$> split r.
Proof.
  induction s as [|c s IH]; intros st esc tok q ts r H.
  - rewrite append_empty_l, append_cons.
    destruct st; simpl in H; try done; unfold emit in H; simpl.
    + destruct (nonempty tok || q) eqn:E; simplify_eq/=; [done|].
      apply orb_false_iff in E as [->%nonempty_false ->].
      rewrite fmap_app_nil. by apply lex_escapedstate.
    + destruct (nonempty tok || q) eqn:E; simplify_eq/=; [done|].
      apply orb_false_iff in E as [->%nonempty_false ->].
      rewrite fmap_app_nil. by apply lex_escapedstate.
  - rewrite append_cons.
    destruct st as [| |qc|e]; simpl in H |- *;
      repeat case_match; try (by apply IH);
      match type of H with
      | _ <$> ?x = _ =>
          destruct x as [l|] eqn:Hl; simplify_eq/=;
          rewrite (IH _ _ _ _ _ r Hl); apply fmap_cons_app
      end.
Qed.

Lemma split_app_space s ts r :
  split s = Ok ts → split (s +:+ " " +:+ r) = app ts <$> split r.
Proof. apply lex_app_space. Qed.

Lemma split_space_l r : split (" " +:+ r) = split r.
Proof.
  change (" " +:+ r) with ("" +:+ " " +:+ r).
  rewrite (split_app_space "" [] r); [apply fmap_app_nil | done].
Qed.

Lemma split_space_r s ts : split s = Ok ts → split (s +:+ " ") = Ok ts.
Proof.
  intros H. rewrite <- (append_empty_r " ").
  rewrite (split_app_space s ts ""); [|done].
  simpl. by rewrite (right_id_L [] app).
Qed.

Lemma plain_char_spec c :
  plain_char c = true →
  char_in c whitespace = false ∧ char_in c quotes = false ∧
  char_in c escape = false.
Proof.
  unfold plain_char. rewrite negb_true_iff, !orb_false_iff. tauto.
Qed.

Lemma lex_plain w : ∀ esc tok q,
  plain w = true → lex InWord esc tok q w = emit (tok +:+ w) q (Ok []).
Proof.
  induction w as [|c w IH]; intros esc tok q H.
  - simpl. by rewrite append_empty_r.
  - change (plain_char c && plain w = true) in H.
    apply andb_true_iff in H as [Hc Hw].
    apply plain_char_spec in Hc as (H1 & H2 & H3).
    simpl in H1, H2, H3 |- *. rewrite H1, H2, H3.
    rewrite IH by done. unfold push.
    by rewrite append_assoc, append_cons, append_empty_l.
Qed.

(** A shell word is its own single token. *)
Lemma split_word w : word w = true → split w = Ok [w].
Proof.
  unfold word. intros [Hne Hp]%andb_true_iff.
  destruct w as [|c w]; [done|].
  change (plain_char c && plain w = true) in Hp.
  apply andb_true_iff in Hp as [Hc Hw].
  apply plain_char_spec in Hc as (H1 & H2 & H3).
  unfold split. simpl in H1, H2, H3 |- *. rewrite H1, H2, H3.
  rewrite lex_plain by done. unfold emit.
  by rewrite append_cons, append_empty_l.
Qed.

Lemma plain_app a b : plain (a +:+ b) = plain a && plain b.
Proof.
  induction a as [|c a IH]; [done|].
  rewrite append_cons. simpl. by rewrite IH, andb_assoc.
Qed.

Lemma word_app_l a b : word a = true → plain b = true → word (a +:+ b) = true.
Proof.
  unfold word. intros [Hne Hp]%andb_true_iff Hb.
  rewrite plain_app, Hp, Hb. by destruct a.
Qed.

(** A word followed by a blank and more text. *)
Lemma split_word_space w r :
  word w = true → split (w +:+ " " +:+ r) = cons w <$> split r.
Proof. intros H. by rewrite (split_app_space w [w] r (split_word w H)). Qed.

(** A blank-separated piece in the middle of a command line. *)
Lemma split_middle pre mid post tp tm tq :
  split pre = Ok tp → split mid = Ok tm → split post = Ok tq →
  split (pre +:+ " " +:+ mid +:+ " " +:+ post) = Ok (tp ++ tm ++ tq).
Proof.
  intros Hp Hm Hq.
  rewrite (split_app_space pre tp _ Hp), (split_app_space mid tm _ Hm), Hq.
  done.
Qed.

End ShlexFacts.

(* ===================================================================== *)
(** ** [build] as the evaluation of its table *)
(* ===================================================================== *)

Section TableFacts.

Lemma bind_ext {A B} (r : result A) (f g : A → result B) :
  (∀ x, f x = g x) → r ≫= f = r ≫= g.
Proof. intros H. destruct r; simpl; [apply H | done]. Qed.

Lemma bind_assoc {A B C} (r : result A) (f : A → result B)
    (g : B → result C) :
  (r ≫= f) ≫= g = r ≫= λ x, f x ≫= g.
Proof. by destruct r. Qed.

Lemma bind_ok {A B} (x : A) (f : A → result B) : Ok x ≫= f = f x.
Proof. done. Qed.

Lemma finish_nil acc params : finish acc [] params = Ok acc.
Proof. unfold finish. simpl. by rewrite append_empty_r. Qed.

Lemma finish_cons acc k seg tbl params :
  finish acc ((k, seg) :: tbl) params =
  seg (params !!! k) ≫= λ s, finish (acc +:+ s) tbl params.
Proof.
  unfold finish. simpl.
  destruct (seg (params !!! k)) as [s|e]; simpl; [|done].
  destruct (segments tbl params) as [ss|e]; simpl; [|done].
  by rewrite append_assoc.
Qed.

Lemma guarded_step c rhs acc (K G : string → result string) :
  (∀ s, K (acc +:+ s) = G s) →
  append_if c rhs acc ≫= K = (if c then rhs else Ok "") ≫= G.
Proof.
  intros H. unfold append_if.
  destruct c; simpl.
  - destruct rhs; simpl; [apply H | done].
  - rewrite <- H. by rewrite append_empty_r.
Qed.

Lemma text_step flag v acc (K G : string → result string) :
  (∀ s, K (acc +:+ s) = G s) →
  append_if (truthy v) (concat flag v) acc ≫= K = text_field flag v ≫= G.
Proof. apply guarded_step. Qed.

Lemma bool_step yes no v acc (K G : string → result string) :
  (∀ s, K (acc +:+ s) = G s) →
  append_if (is_True v) (Ok yes) acc ≫=
    (λ cli, append_if (is_False v) (Ok no) cli ≫= K)
  = bool_field yes no v ≫= G.
Proof.
  intros H. unfold append_if, bool_field.
  destruct (is_True v), (is_False v); simpl; rewrite <- H;
    by rewrite ?append_assoc, ?append_empty_r.
Qed.

Lemma finish_acc acc acc' tbl params :
  acc = acc' → finish acc tbl params = finish acc' tbl params.
Proof. by intros ->. Qed.

Lemma failover_step v acc (K G : string → result string) :
  (∀ s, K (acc +:+ s) = G s) →
  append_if (truthy v) (a ← concat " failover-" v; Ok (a +:+ "-L2 ")) acc
    ≫= K
  = Vlag.failover_field v ≫= G.
Proof. apply guarded_step. Qed.

Ltac table_step :=
  rewrite finish_cons;
  first [ apply text_step | apply bool_step | apply failover_step ];
  intros ?; cbv beta.

Lemma trunk_build_table (params : gmap string value) :
  Trunk.build params =
  sw ← Trunk.switch_clause (params !!! "pn_cliswitch");
  ss ← segments Trunk.fields params;
  Ok (Trunk.credentials params +:+ sw +:+ Trunk.operation params +:+
      flatten ss).
Proof.
  unfold Trunk.build.
  set (tail := λ sw : string,
         finish (Trunk.credentials params +:+ sw +:+ Trunk.operation params)
                Trunk.fields params).
  trans (Trunk.switch_clause (params !!! "pn_cliswitch") ≫= tail).
  2:{ apply bind_ext. intros sw. unfold tail, finish.
      destruct (segments _ _); simpl; [|done].
      by rewrite !append_assoc. }
  unfold Trunk.switch_clause, tail, Trunk.credentials, Trunk.operation.
  unfold append_if at 1.
  destruct (is_True (params !!! "pn_quiet")); simpl;
    (apply guarded_step; intros sw; cbv beta;
     match goal with
     | |- append_if _ _ ?acc ≫= _ = _ =>
         trans (finish acc Trunk.fields params);
         [| apply finish_acc; by rewrite !append_assoc ]
     end;
     unfold Trunk.fields; repeat table_step; by rewrite finish_nil).
Qed.

Lemma vlag_build_table (params : gmap string value) :
  Vlag.build params =
  cred ← Vlag.credentials params;
  sw ← Vlag.switch_clause (params !!! "pn_cliswitch");
  op ← Vlag.operation params;
  ss ← segments Vlag.fields params;
  Ok (cred +:+ sw +:+ op +:+ flatten ss).
Proof.
  unfold Vlag.build.
  trans (Vlag.credentials params ≫= λ cred,
         Vlag.switch_clause (params !!! "pn_cliswitch") ≫= λ sw,
         Vlag.operation params ≫= λ op,
         finish (cred +:+ sw +:+ op) Vlag.fields params).
  2:{ do 3 (apply bind_ext; intros ?). unfold finish.
      destruct (segments _ _); simpl; [|done].
      by rewrite !append_assoc. }
  trans (Vlag.credentials params ≫= λ cli,
           append_if (truthy (params !!! "pn_cliswitch"))
             (concat " switch " (params !!! "pn_cliswitch")) cli ≫= λ cli,
           Vlag.operation params ≫= λ op,
           finish (cli +:+ op) Vlag.fields params).
  - unfold Vlag.credentials.
    destruct (is_True (params !!! "pn_quiet")); simpl;
      (do 3 (apply bind_ext; intros ?);
       unfold Vlag.fields; repeat table_step; by rewrite finish_nil).
  - apply bind_ext; intros cred.
    apply text_step; intros sw; cbv beta.
    apply bind_ext; intros op.
    apply finish_acc. by rewrite !append_assoc.
Qed.

(** *** Changing one parameter of a table *)

Lemma segments_insert_ne tbl k v (params : gmap string value) :
  k ∉ tbl.*1 → segments tbl (<[k := v]> params) = segments tbl params.
Proof.
  induction tbl as [|[k' seg] tbl IH]; intros Hk; simpl; [done|].
  apply not_elem_of_cons in Hk as [Hne Hk].
  by rewrite lookup_total_insert_ne, IH.
Qed.

Lemma segments_app t1 t2 (params : gmap string value) :
  segments (t1 ++ t2) params =
  a ← segments t1 params; b ← segments t2 params; Ok (a ++ b).
Proof.
  induction t1 as [|[k seg] t1 IH]; simpl.
  - by destruct (segments t2 params).
  - destruct (seg (params !!! k)); simpl; [|done].
    rewrite IH. destruct (segments t1 params); simpl; [|done].
    by destruct (segments t2 params).
Qed.

Lemma segments_ext tbl (p q : gmap string value) :
  (∀ k, p !!! k = q !!! k) → segments tbl p = segments tbl q.
Proof.
  intros H. induction tbl as [|[k seg] tbl IH]; simpl; [done|].
  by rewrite H, IH.
Qed.

Lemma flatten_app a b : flatten (a ++ b) = flatten a +:+ flatten b.
Proof.
  induction a as [|x a IH]; simpl; [done|].
  by rewrite IH, append_assoc.
Qed.

Lemma spaced_app a b : spaced a → spaced b → spaced (a +:+ b).
Proof.
  intros [->|[a' ->]] Hb; [done|].
  right. exists (a' +:+ b). by rewrite append_assoc.
Qed.

Lemma concat_spaced flag v s :
  concat (" " +:+ flag) v = Ok s → spaced s.
Proof.
  destruct v; simpl; intros; simplify_eq.
  right. eexists. by rewrite append_assoc.
Qed.

Lemma text_field_spaced flag v s :
  text_field (" " +:+ flag) v = Ok s → spaced s.
Proof.
  unfold text_field. destruct (truthy v).
  - apply concat_spaced.
  - intros; simplify_eq. by left.
Qed.

Lemma bool_field_spaced yes no v s :
  bool_field (" " +:+ yes) (" " +:+ no) v = Ok s → spaced s.
Proof.
  unfold bool_field.
  destruct (is_True v), (is_False v); simpl; intros; simplify_eq;
    try (by left); right; eexists; by rewrite ?append_assoc.
Qed.

Lemma failover_field_spaced v s : Vlag.failover_field v = Ok s → spaced s.
Proof.
  unfold Vlag.failover_field. destruct (truthy v).
  - destruct v; simpl; intros; simplify_eq.
    right. eexists. by rewrite !append_assoc.
  - intros; simplify_eq. by left.
Qed.

Lemma segments_spaced tbl (params : gmap string value) ss :
  Forall (λ ks, ∀ v s, ks.2 v = Ok s → spaced s) tbl →
  segments tbl params = Ok ss → spaced (flatten ss).
Proof.
  intros H. revert ss.
  induction H as [|[k seg] tbl Hseg _ IH]; simpl; intros ss Hss.
  - simplify_eq. by left.
  - destruct (seg (params !!! k)) as [s|] eqn:Hs; simpl in Hss; [|done].
    destruct (segments tbl params) as [ss'|]; simpl in Hss; [|done].
    simplify_eq. simpl. apply spaced_app; [by eapply Hseg | by apply IH].
Qed.

(** A command line whose shape is a head followed by a table. *)
Section Layout.
Variable build : gmap string value → result string.
Variable head : gmap string value → result string.
Variable tbl : list (string * (value → result string)).

Hypothesis build_eq : ∀ params,
  build params =
  h ← head params; ss ← segments tbl params; Ok (h +:+ flatten ss).
Hypothesis tbl_nodup : NoDup tbl.*1.
Hypothesis head_insert : ∀ k v params,
  k ∈ tbl.*1 → head (<[k := v]> params) = head params.
Hypothesis head_ext : ∀ p q : gmap string value,
  (∀ k, p !!! k = q !!! k) → head p = head q.
Hypothesis tbl_spaced :
  Forall (λ ks, ∀ v s, ks.2 v = Ok s → spaced s) tbl.
Hypothesis tbl_none : Forall (λ ks, ks.2 VNone = Ok "") tbl.

Lemma layout_ext (p q : gmap string value) :
  (∀ k, p !!! k = q !!! k) → build p = build q.
Proof.
  intros H. by rewrite !build_eq, (head_ext p q), (segments_ext tbl p q).
Qed.

Lemma layout_delete k (params : gmap string value) :
  build (delete k params) = build (<[k := VNone]> params).
Proof.
  apply layout_ext. intros k'. destruct (decide (k = k')) as [->|].
  - by rewrite lookup_total_delete_eq, lookup_total_insert_eq.
  - by rewrite lookup_total_delete_ne, lookup_total_insert_ne.
Qed.

Lemma layout_split k seg :
  (k, seg) ∈ tbl →
  ∃ t1 t2, tbl = t1 ++ ((k, seg) :: t2) ∧ ¬ (k ∈ t1.*1) ∧ ¬ (k ∈ t2.*1).
Proof.
  intros Hin. apply list_elem_of_split in Hin as (t1 & t2 & Heq).
  exists t1, t2. split; [done|].
  pose proof tbl_nodup as Hnd. rewrite Heq, fmap_app, fmap_cons in Hnd.
  apply NoDup_app in Hnd as (_ & H1 & [H2 _]%NoDup_cons).
  split; [|done]. intros Hin. apply (H1 _ Hin). by left.
Qed.

Lemma layout_insert k seg (params : gmap string value) :
  (k, seg) ∈ tbl →
  ∃ t1 t2,
    Forall (λ ks, ∀ v s, ks.2 v = Ok s → spaced s) t2 ∧
    ∀ v,
      build (<[k := v]> params) =
      h ← head params;
      a ← segments t1 params;
      s ← seg v;
      b ← segments t2 params;
      Ok (h +:+ flatten a +:+ s +:+ flatten b).
Proof.
  intros Hin. destruct (layout_split k seg Hin) as (t1 & t2 & Heq & H1 & H2).
  exists t1, t2. split.
  { pose proof tbl_spaced as Hs. rewrite Heq in Hs.
    by apply Forall_app in Hs as [_ [_ Hs]%Forall_cons]. }
  intros v'. rewrite build_eq, head_insert.
  2:{ rewrite Heq, fmap_app, fmap_cons.
      apply elem_of_app. right. by left. }
  apply bind_ext; intros h.
  rewrite Heq, segments_app. simpl.
  rewrite lookup_total_insert_eq, !segments_insert_ne by done.
  destruct (segments t1 params) as [a|]; simpl; [|done].
  destruct (seg v') as [s|]; simpl; [|done].
  destruct (segments t2 params) as [b|]; simpl; [|done].
  rewrite flatten_app. simpl. by rewrite ?append_assoc.
Qed.

(** The command line with a parameter set is the command line without
    it, with the parameter's text put in at one place. *)
Lemma layout_field k seg base (params : gmap string value) :
  (k, seg) ∈ tbl →
  build (<[k := VNone]> params) = Ok base →
  ∃ pre post,
    base = pre +:+ post ∧ spaced post ∧
    ∀ v s, seg v = Ok s →
           build (<[k := v]> params) = Ok (pre +:+ s +:+ post).
Proof.
  intros Hin Hbase.
  destruct (layout_insert k seg params Hin) as (t1 & t2 & Hsp & Hb).
  assert (seg VNone = Ok "") as Hnone.
  { pose proof tbl_none as Hn. rewrite Forall_forall in Hn.
    by apply (Hn (k, seg)). }
  rewrite Hb, Hnone in Hbase.
  destruct (head params) as [h|] eqn:Hh; simpl in *; [|done].
  destruct (segments t1 params) as [a|] eqn:Ha; simpl in *; [|done].
  destruct (segments t2 params) as [b|] eqn:Hb2; simpl in *; [|done].
  simplify_eq. exists (h +:+ flatten a), (flatten b).
  split_and!.
  - by rewrite append_empty_l, !append_assoc.
  - by eapply segments_spaced.
  - intros v s Hs. rewrite Hb, Hs. simpl. by rewrite !append_assoc.
Qed.

(** An exception raised for the parameter's value escapes [build]. *)
Lemma layout_field_raise k seg base v e (params : gmap string value) :
  (k, seg) ∈ tbl →
  build (<[k := VNone]> params) = Ok base →
  seg v = Raise e →
  build (<[k := v]> params) = Raise e.
Proof.
  intros Hin Hbase Hs.
  destruct (layout_insert k seg params Hin) as (t1 & t2 & Hsp & Hb).
  rewrite Hb in Hbase. rewrite Hb, Hs.
  destruct (head params) as [h|]; simpl in *; [|done].
  by destruct (segments t1 params) as [a|]; simpl in *.
Qed.

(** Two values with the same text give the same command line. *)
Lemma layout_same_text k seg v v' (params : gmap string value) :
  (k, seg) ∈ tbl → seg v = seg v' →
  build (<[k := v]> params) = build (<[k := v']> params).
Proof.
  intros Hin Heq.
  destruct (layout_insert k seg params Hin) as (t1 & t2 & _ & Hb).
  by rewrite !Hb, Heq.
Qed.

End Layout.

(** *** The two modules' layouts *)

Lemma trunk_layout (params : gmap string value) :
  Trunk.build params =
  h ← Trunk.head params;
  ss ← segments Trunk.fields params;
  Ok (h +:+ flatten ss).
Proof.
  rewrite trunk_build_table. unfold Trunk.head.
  rewrite bind_assoc. apply bind_ext; intros sw. rewrite bind_ok.
  apply bind_ext; intros ss. by rewrite !append_assoc.
Qed.

Lemma vlag_layout (params : gmap string value) :
  Vlag.build params =
  h ← Vlag.head params;
  ss ← segments Vlag.fields params;
  Ok (h +:+ flatten ss).
Proof.
  rewrite vlag_build_table. unfold Vlag.head.
  rewrite bind_assoc. apply bind_ext; intros cred.
  rewrite bind_assoc. apply bind_ext; intros sw.
  rewrite bind_assoc. apply bind_ext; intros op. rewrite bind_ok.
  apply bind_ext; intros ss. by rewrite !append_assoc.
Qed.

Lemma trunk_fields_nodup : NoDup Trunk.fields.*1.
Proof. apply (bool_decide_unpack _). by vm_compute. Qed.

Lemma vlag_fields_nodup : NoDup Vlag.fields.*1.
Proof. apply (bool_decide_unpack _). by vm_compute. Qed.

Ltac each_key H :=
  repeat (apply elem_of_cons in H as [->|H]); [..| by apply elem_of_nil in H].

Lemma trunk_head_insert k v (params : gmap string value) :
  k ∈ Trunk.fields.*1 →
  Trunk.head (<[k := v]> params) = Trunk.head params.
Proof.
  intros H. unfold Trunk.head, Trunk.credentials, Trunk.operation.
  simpl in H. each_key H; by rewrite !lookup_total_insert_ne.
Qed.

Lemma vlag_head_insert k v (params : gmap string value) :
  k ∈ Vlag.fields.*1 →
  Vlag.head (<[k := v]> params) = Vlag.head params.
Proof.
  intros H. unfold Vlag.head, Vlag.credentials, Vlag.operation.
  simpl in H. each_key H; by rewrite !lookup_total_insert_ne.
Qed.

Lemma trunk_head_ext (p q : gmap string value) :
  (∀ k, p !!! k = q !!! k) → Trunk.head p = Trunk.head q.
Proof.
  intros H. unfold Trunk.head, Trunk.credentials, Trunk.operation.
  by rewrite !H.
Qed.

Lemma vlag_head_ext (p q : gmap string value) :
  (∀ k, p !!! k = q !!! k) → Vlag.head p = Vlag.head q.
Proof.
  intros H. unfold Vlag.head, Vlag.credentials, Vlag.operation.
  by rewrite !H.
Qed.

Lemma trunk_fields_spaced :
  Forall (λ ks : string * (value → result string),
            ∀ v s, ks.2 v = Ok s → spaced s) Trunk.fields.
Proof.
  unfold Trunk.fields.
  repeat (apply Forall_cons; split;
          [intros v s; first [apply text_field_spaced
                             | apply bool_field_spaced]|]).
  apply Forall_nil_2.
Qed.

Lemma vlag_fields_spaced :
  Forall (λ ks : string * (value → result string),
            ∀ v s, ks.2 v = Ok s → spaced s) Vlag.fields.
Proof.
  unfold Vlag.fields.
  repeat (apply Forall_cons; split;
          [intros v s; first [apply text_field_spaced
                             | apply failover_field_spaced]|]).
  apply Forall_nil_2.
Qed.

Lemma trunk_fields_none :
  Forall (λ ks : string * (value → result string), ks.2 VNone = Ok "")
    Trunk.fields.
Proof. unfold Trunk.fields. by repeat (apply Forall_cons; split; [done|]). Qed.

Lemma vlag_fields_none :
  Forall (λ ks : string * (value → result string), ks.2 VNone = Ok "")
    Vlag.fields.
Proof. unfold Vlag.fields. by repeat (apply Forall_cons; split; [done|]). Qed.

Lemma trunk_field k seg base (params : gmap string value) :
  (k, seg) ∈ Trunk.fields →
  Trunk.build (<[k := VNone]> params) = Ok base →
  ∃ pre post,
    base = pre +:+ post ∧ spaced post ∧
    ∀ v s, seg v = Ok s →
           Trunk.build (<[k := v]> params) = Ok (pre +:+ s +:+ post).
Proof.
  apply (layout_field Trunk.build Trunk.head Trunk.fields);
    auto using trunk_layout, trunk_fields_nodup, trunk_head_insert,
      trunk_fields_spaced, trunk_fields_none.
Qed.

Lemma vlag_field k seg base (params : gmap string value) :
  (k, seg) ∈ Vlag.fields →
  Vlag.build (<[k := VNone]> params) = Ok base →
  ∃ pre post,
    base = pre +:+ post ∧ spaced post ∧
    ∀ v s, seg v = Ok s →
           Vlag.build (<[k := v]> params) = Ok (pre +:+ s +:+ post).
Proof.
  apply (layout_field Vlag.build Vlag.head Vlag.fields);
    auto using vlag_layout, vlag_fields_nodup, vlag_head_insert,
      vlag_fields_spaced, vlag_fields_none.
Qed.

Lemma trunk_same_text k seg v v' (params : gmap string value) :
  (k, seg) ∈ Trunk.fields → seg v = seg v' →
  Trunk.build (<[k := v]> params) = Trunk.build (<[k := v']> params).
Proof.
  apply (layout_same_text Trunk.build Trunk.head Trunk.fields);
    auto using trunk_layout, trunk_fields_nodup, trunk_head_insert,
      trunk_fields_spaced.
Qed.

Lemma vlag_same_text k seg v v' (params : gmap string value) :
  (k, seg) ∈ Vlag.fields → seg v = seg v' →
  Vlag.build (<[k := v]> params) = Vlag.build (<[k := v']> params).
Proof.
  apply (layout_same_text Vlag.build Vlag.head Vlag.fields);
    auto using vlag_layout, vlag_fields_nodup, vlag_head_insert,
      vlag_fields_spaced.
Qed.

Lemma trunk_delete k (params : gmap string value) :
  Trunk.build (delete k params) = Trunk.build (<[k := VNone]> params).
Proof.
  apply (layout_delete Trunk.build Trunk.head Trunk.fields);
    auto using trunk_layout, trunk_head_ext.
Qed.

Lemma vlag_delete k (params : gmap string value) :
  Vlag.build (delete k params) = Vlag.build (<[k := VNone]> params).
Proof.
  apply (layout_delete Vlag.build Vlag.head Vlag.fields);
    auto using vlag_layout, vlag_head_ext.
Qed.

Lemma trunk_field_raise k seg base v e (params : gmap string value) :
  (k, seg) ∈ Trunk.fields →
  Trunk.build (<[k := VNone]> params) = Ok base →
  seg v = Raise e →
  Trunk.build (<[k := v]> params) = Raise e.
Proof.
  apply (layout_field_raise Trunk.build Trunk.head Trunk.fields);
    auto using trunk_layout, trunk_fields_nodup, trunk_head_insert,
      trunk_fields_spaced.
Qed.

Lemma trunk_insert k seg (params : gmap string value) :
  (k, seg) ∈ Trunk.fields →
  ∃ t1 t2,
    Forall (λ ks, ∀ v s, ks.2 v = Ok s → spaced s) t2 ∧
    ∀ v,
      Trunk.build (<[k := v]> params) =
      h ← Trunk.head params;
      a ← segments t1 params;
      s ← seg v;
      b ← segments t2 params;
      Ok (h +:+ flatten a +:+ s +:+ flatten b).
Proof.
  apply (layout_insert Trunk.build Trunk.head Trunk.fields);
    auto using trunk_layout, trunk_fields_nodup, trunk_head_insert,
      trunk_fields_spaced.
Qed.

(** *** The switch clause *)

Lemma trunk_switch (params : gmap string value) v :
  Trunk.build (<["pn_cliswitch" := v]> params) =
  sw ← Trunk.switch_clause v;
  ss ← segments Trunk.fields params;
  Ok (Trunk.credentials params +:+ sw +:+ Trunk.operation params +:+
      flatten ss).
Proof.
  rewrite trunk_build_table, lookup_total_insert_eq.
  rewrite segments_insert_ne
    by (apply (bool_decide_unpack _); by vm_compute).
  unfold Trunk.credentials, Trunk.operation.
  by rewrite !lookup_total_insert_ne.
Qed.

Lemma vlag_switch (params : gmap string value) v :
  Vlag.build (<["pn_cliswitch" := v]> params) =
  cred ← Vlag.credentials params;
  sw ← Vlag.switch_clause v;
  op ← Vlag.operation params;
  ss ← segments Vlag.fields params;
  Ok (cred +:+ sw +:+ op +:+ flatten ss).
Proof.
  rewrite vlag_build_table, lookup_total_insert_eq.
  rewrite segments_insert_ne
    by (apply (bool_decide_unpack _); by vm_compute).
  unfold Vlag.credentials, Vlag.operation.
  by rewrite !lookup_total_insert_ne.
Qed.

(** *** Tokens of a command line with a word put in *)

Lemma split_insert_word pre w post tp tq :
  Shlex.split pre = Ok tp → Shlex.split post = Ok tq → spaced post →
  Shlex.word w = true →
  Shlex.split (pre +:+ post) = Ok (tp ++ tq) ∧
  Shlex.split (pre +:+ " " +:+ w +:+ post) = Ok (tp ++ w :: tq).
Proof.
  intros Hp Hq [->|[post' ->]] Hw.
  - assert (tq = []) as -> by (vm_compute in Hq; by simplify_eq).
    rewrite !append_empty_r. split.
    + by rewrite (right_id_L [] app).
    + by rewrite (split_app_space pre tp _ Hp), (split_word w Hw).
  - rewrite split_space_l in Hq. split.
    + by rewrite (split_app_space pre tp _ Hp), Hq.
    + by rewrite (split_app_space pre tp _ Hp), (split_word_space w _ Hw), Hq.
Qed.

End TableFacts.

(* ===================================================================== *)
(** ** The command builder, field by field *)
(* ===================================================================== *)

Ltac in_list := repeat first [apply list_elem_of_here | apply list_elem_of_further].

Ltac each_member H :=
  repeat (apply elem_of_cons in H as [H|H]; [simplify_eq|]);
  [..| by apply elem_of_nil in H].

(** C2. Every tri-state boolean of the trunk module (the VLAG module has
    none) puts its bare token into the command line when true, the negated
    token when false, and nothing when absent; the tokens are those of the
    documented table, including mirror-receive-only / no-mirror-receive-only
    and host-enable / host-disable.  The command line with the parameter set
    is the command line without it with the token put in at one place, and
    it tokenizes to the same argument vector with that one token added. *)
Theorem tri_bool_fields_render :
  tri_state_params Trunk.argument_spec = spec_tri_bool_tokens.*1.*1 ∧
  tri_state_params Vlag.argument_spec = [] ∧
  ∀ f yes no (params : gmap string value) base,
    (f, yes, no) ∈ spec_tri_bool_tokens →
    Trunk.build (<[f := VNone]> params) = Ok base →
    ∃ pre post,
      base = pre +:+ post ∧
      Trunk.build (<[f := VBool true]> params)
        = Ok (pre +:+ " " +:+ yes +:+ " " +:+ post) ∧
      Trunk.build (<[f := VBool false]> params)
        = Ok (pre +:+ " " +:+ no +:+ " " +:+ post) ∧
      ∀ tp tq,
        Shlex.split pre = Ok tp → Shlex.split post = Ok tq →
        Shlex.split base = Ok (tp ++ tq) ∧
        Shlex.split (pre +:+ " " +:+ yes +:+ " " +:+ post)
          = Ok (tp ++ yes :: tq) ∧
        Shlex.split (pre +:+ " " +:+ no +:+ " " +:+ post)
          = Ok (tp ++ no :: tq).
Proof.
  split; [done|]. split; [done|].
  intros f yes no params base Hin Hbase.
  assert (Shlex.word yes = true ∧ Shlex.word no = true ∧
          (f, bool_field (" " +:+ yes +:+ " ") (" " +:+ no +:+ " "))
            ∈ Trunk.fields) as (Hy & Hn & Hf).
  { unfold spec_tri_bool_tokens in Hin.
    each_member Hin; (split_and!; [done | done | unfold Trunk.fields; in_list]). }
  destruct (trunk_field _ _ _ _ Hf Hbase) as (pre & post & -> & Hsp & Hv).
  exists pre, post. split_and!; [done | | |].
  - rewrite (Hv (VBool true) (" " +:+ yes +:+ " ")).
    + by rewrite !append_assoc.
    + unfold bool_field. simpl. by rewrite append_empty_r.
  - rewrite (Hv (VBool false) (" " +:+ no +:+ " ")).
    + by rewrite !append_assoc.
    + done.
  - intros tp tq Hp Hq.
    assert (Shlex.split (" " +:+ post) = Ok tq) as Hq'
      by by rewrite split_space_l.
    assert (spaced (" " +:+ post)) as Hsp' by (right; by eexists).
    split_and!.
    + by apply (split_insert_word pre yes post tp tq).
    + by apply (split_insert_word pre yes (" " +:+ post) tp tq).
    + by apply (split_insert_word pre no (" " +:+ post) tp tq).
Qed.

Lemma tri_bool_fields_render_witness :
  ("pn_jumbo", "jumbo", "no-jumbo") ∈ spec_tri_bool_tokens ∧
  Trunk.build (<["pn_jumbo" := VNone]> (trunk_params example_create_trunk))
    = Ok ("/usr/bin/cli --quiet  --user admin:admin  trunk-create name " +:+
          "spine-to-leaf  ports 11,12,13,14") ∧
  ∃ pre post,
    "/usr/bin/cli --quiet  --user admin:admin  trunk-create name " +:+
      "spine-to-leaf  ports 11,12,13,14" = pre +:+ post ∧
    Trunk.build (<["pn_jumbo" := VBool true]> (trunk_params example_create_trunk))
      = Ok (pre +:+ " jumbo " +:+ post) ∧
    Trunk.build (<["pn_jumbo" := VBool false]> (trunk_params example_create_trunk))
      = Ok (pre +:+ " no-jumbo " +:+ post).
Proof.
  assert (("pn_jumbo", "jumbo", "no-jumbo") ∈ spec_tri_bool_tokens) as Hin
    by (unfold spec_tri_bool_tokens; in_list).
  assert (Trunk.build
            (<["pn_jumbo" := VNone]> (trunk_params example_create_trunk))
          = Ok ("/usr/bin/cli --quiet  --user admin:admin  trunk-create name "
                +:+ "spine-to-leaf  ports 11,12,13,14")) as Hbase
    by (vm_compute; reflexivity).
  split; [exact Hin|]. split; [exact Hbase|].
  destruct (proj2 (proj2 tri_bool_fields_render) _ _ _ _ _ Hin Hbase)
    as (pre & post & H1 & H2 & H3 & _).
  exists pre, post. auto.
Defined.

Lemma truthy_str (v : string) : v ≠ "" → truthy (VStr v) = true.
Proof. intros H. simpl. apply negb_true_iff. by apply String.eqb_neq. Qed.

Lemma text_field_str flag v :
  v ≠ "" → text_field flag (VStr v) = Ok (flag +:+ v).
Proof. intros H. unfold text_field. by rewrite truthy_str. Qed.

Lemma text_field_falsy flag v : truthy v = false → text_field flag v = Ok "".
Proof. intros H. unfold text_field. by rewrite H. Qed.

(** C7. A VLAG request with a peer switch gets the text [ peer-switch]
    immediately followed by the value, with no blank between them: the
    command line is the one without the parameter with that text put in at
    one place, and for a value that is one shell word the argument vector
    gains the single token [peer-switch<value>]. *)
Theorem peer_switch_no_space :
  ∀ (params : gmap string value) v base,
    v ≠ "" →
    Vlag.build (<["pn_peer_switch" := VNone]> params) = Ok base →
    ∃ pre post,
      base = pre +:+ post ∧
      Vlag.build (<["pn_peer_switch" := VStr v]> params)
        = Ok (pre +:+ " peer-switch" +:+ v +:+ post) ∧
      ∀ tp tq,
        Shlex.plain v = true →
        Shlex.split pre = Ok tp → Shlex.split post = Ok tq →
        Shlex.split base = Ok (tp ++ tq) ∧
        Shlex.split (pre +:+ " peer-switch" +:+ v +:+ post)
          = Ok (tp ++ ("peer-switch" +:+ v) :: tq).
Proof.
  intros params v base Hv Hbase.
  assert (("pn_peer_switch", text_field " peer-switch") ∈ Vlag.fields) as Hf
    by (unfold Vlag.fields; in_list).
  destruct (vlag_field _ _ _ _ Hf Hbase) as (pre & post & -> & Hsp & Hb).
  exists pre, post. split_and!; [done | |].
  - by rewrite (Hb (VStr v) _ (text_field_str _ v Hv)), !append_assoc.
  - intros tp tq Hplain Hp Hq.
    assert (Shlex.word ("peer-switch" +:+ v) = true) as Hw
      by by apply word_app_l.
    destruct (split_insert_word pre _ post tp tq Hp Hq Hsp Hw) as [H1 H2].
    split; [done|]. by rewrite append_assoc in H2.
Qed.

Lemma peer_switch_no_space_witness :
  "spine02" ≠ "" ∧
  Vlag.build (<["pn_peer_switch" := VNone]> (vlag_params example_create_vlag))
    = Ok ("/usr/bin/cli --quiet --user admin:admin  vlag-create name " +:+
          "spine-to-leaf port spine01-to-leaf peer-port spine02-to-leaf" +:+
          " mode active-active") ∧
  Vlag.build (vlag_params example_create_vlag)
    = Ok ("/usr/bin/cli --quiet --user admin:admin  vlag-create name " +:+
          "spine-to-leaf port spine01-to-leaf peer-port spine02-to-leaf" +:+
          " mode active-active peer-switchspine02") ∧
  ∃ pre post,
    Vlag.build (<["pn_peer_switch" := VStr "spine02"]>
                  (vlag_params example_create_vlag))
      = Ok (pre +:+ " peer-switchspine02" +:+ post) ∧
    ∀ tp tq,
      Shlex.split pre = Ok tp → Shlex.split post = Ok tq →
      Shlex.split (pre +:+ " peer-switchspine02" +:+ post)
        = Ok (tp ++ "peer-switchspine02" :: tq).
Proof.
  assert ("spine02" ≠ "") as Hv by discriminate.
  assert (Vlag.build
            (<["pn_peer_switch" := VNone]> (vlag_params example_create_vlag))
          = Ok ("/usr/bin/cli --quiet --user admin:admin  vlag-create name "
                +:+ "spine-to-leaf port spine01-to-leaf peer-port " +:+
                "spine02-to-leaf mode active-active")) as Hbase
    by (vm_compute; reflexivity).
  split; [exact Hv|]. split; [exact Hbase|].
  split; [vm_compute; reflexivity|].
  destruct (peer_switch_no_space _ "spine02" _ Hv Hbase)
    as (pre & post & _ & H2 & H3).
  exists pre, post. split; [exact H2|].
  intros tp tq Hp Hq. exact (proj2 (H3 tp tq eq_refl Hp Hq)).
Defined.

(** C8. A VLAG request with a failover action gets the text
    [ failover-<value>-L2 ]: the command line is the one without the
    parameter with that text put in at one place, and the argument vector
    gains the single token [failover-<value>-L2] (for the two choices
    [move] and [ignore], and for every other one-word value). *)
Theorem failover_action_single_token :
  ∀ (params : gmap string value) v base,
    v ≠ "" →
    Vlag.build (<["pn_failover_action" := VNone]> params) = Ok base →
    ∃ pre post,
      base = pre +:+ post ∧
      Vlag.build (<["pn_failover_action" := VStr v]> params)
        = Ok (pre +:+ " failover-" +:+ v +:+ "-L2 " +:+ post) ∧
      ∀ tp tq,
        Shlex.plain v = true →
        Shlex.split pre = Ok tp → Shlex.split post = Ok tq →
        Shlex.split base = Ok (tp ++ tq) ∧
        Shlex.split (pre +:+ " failover-" +:+ v +:+ "-L2 " +:+ post)
          = Ok (tp ++ ("failover-" +:+ v +:+ "-L2") :: tq).
Proof.
  intros params v base Hv Hbase.
  assert (("pn_failover_action", Vlag.failover_field) ∈ Vlag.fields) as Hf
    by (unfold Vlag.fields; in_list).
  destruct (vlag_field _ _ _ _ Hf Hbase) as (pre & post & -> & Hsp & Hb).
  exists pre, post. split_and!; [done | |].
  - rewrite (Hb (VStr v) ((" failover-" +:+ v) +:+ "-L2 ")).
    + by rewrite !append_assoc.
    + unfold Vlag.failover_field. by rewrite truthy_str.
  - intros tp tq Hplain Hp Hq.
    assert (Shlex.word ("failover-" +:+ v +:+ "-L2") = true) as Hw.
    { apply word_app_l; [done|]. by rewrite plain_app, Hplain. }
    assert (Shlex.split (" " +:+ post) = Ok tq) as Hq'
      by by rewrite split_space_l.
    assert (spaced (" " +:+ post)) as Hsp' by (right; by eexists).
    split; [by apply (split_insert_word pre "x" post tp tq)|].
    destruct (split_insert_word pre _ _ tp tq Hp Hq' Hsp' Hw) as [_ H2].
    by rewrite !append_assoc in H2.
Qed.

Lemma failover_action_single_token_witness :
  "move" ≠ "" ∧
  Vlag.build (<["pn_failover_action" := VNone]> (vlag_params example_delete_vlag))
    = Ok "/usr/bin/cli --quiet --user admin:admin  vlag-delete name spine-to-leaf" ∧
  Vlag.build (<["pn_failover_action" := VStr "move"]>
                (vlag_params example_delete_vlag))
    = Ok ("/usr/bin/cli --quiet --user admin:admin  vlag-delete name " +:+
          "spine-to-leaf failover-move-L2 ") ∧
  ∃ pre post,
    Vlag.build (<["pn_failover_action" := VStr "move"]>
                  (vlag_params example_delete_vlag))
      = Ok (pre +:+ " failover-move-L2 " +:+ post) ∧
    ∀ tp tq,
      Shlex.split pre = Ok tp → Shlex.split post = Ok tq →
      Shlex.split (pre +:+ " failover-move-L2 " +:+ post)
        = Ok (tp ++ "failover-move-L2" :: tq).
Proof.
  assert ("move" ≠ "") as Hv by discriminate.
  assert (Vlag.build
            (<["pn_failover_action" := VNone]> (vlag_params example_delete_vlag))
          = Ok "/usr/bin/cli --quiet --user admin:admin  vlag-delete name spine-to-leaf")
    as Hbase by (vm_compute; reflexivity).
  split; [exact Hv|]. split; [exact Hbase|].
  split; [vm_compute; reflexivity|].
  destruct (failover_action_single_token _ "move" _ Hv Hbase)
    as (pre & post & _ & H2 & H3).
  exists pre, post. split; [exact H2|].
  intros tp tq Hp Hq. exact (proj2 (H3 tp tq eq_refl Hp Hq)).
Defined.

(* ===================================================================== *)
(** ** Runs of [main] *)
(* ===================================================================== *)

Section Runs.
Context {world : Type}.
Variable Popen : list string → world → result completed * world.

Lemma trunk_main_rejected args (w : world) msg :
  AnsibleModule Trunk.argument_spec Trunk.required_if args = FailJson msg →
  Trunk.main Popen args w
    = {| popen_calls := []; ending := Failed msg; after := w |}.
Proof. unfold Trunk.main. by intros ->. Qed.

Lemma vlag_main_rejected args (w : world) msg :
  AnsibleModule Vlag.argument_spec Vlag.required_if args = FailJson msg →
  Vlag.main Popen args w
    = {| popen_calls := []; ending := Failed msg; after := w |}.
Proof. unfold Vlag.main. by intros ->. Qed.

Lemma trunk_main_raises args (w : world) params e :
  AnsibleModule Trunk.argument_spec Trunk.required_if args = Params params →
  Trunk.build params = Raise e →
  Trunk.main Popen args w
    = {| popen_calls := []; ending := Traceback e; after := w |}.
Proof. unfold Trunk.main. by intros -> ->. Qed.

Lemma trunk_main_spawns args (w : world) params cli argv :
  AnsibleModule Trunk.argument_spec Trunk.required_if args = Params params →
  Trunk.build params = Ok cli →
  Shlex.split cli = Ok argv →
  popen_calls (Trunk.main Popen args w) = [argv].
Proof.
  unfold Trunk.main. intros -> -> ->.
  by destruct (Popen argv w) as [[r|e] w'].
Qed.

Lemma vlag_main_spawns args (w : world) params cli argv :
  AnsibleModule Vlag.argument_spec Vlag.required_if args = Params params →
  Vlag.build params = Ok cli →
  Shlex.split cli = Ok argv →
  popen_calls (Vlag.main Popen args w) = [argv].
Proof.
  unfold Vlag.main. intros -> -> ->.
  by destruct (Popen argv w) as [[r|e] w'].
Qed.

End Runs.

(* ===================================================================== *)
(** ** Falsy values, the switch clause and the LACP priority *)
(* ===================================================================== *)

(** C10. A parameter whose statement is guarded by its truth value and
    that holds a falsy value (the empty string, the number 0, [None])
    appends nothing: the command line is exactly that of the request
    without the parameter.  This covers every parameter of either module
    that need not be given and is not a boolean, among them [pn_ports],
    [pn_description], [pn_peer_switch] and [pn_lacp_priority]. *)
Theorem falsy_value_same_as_absent :
  ∀ f v (params : gmap string value),
    truthy v = false →
    (f ∈ optional_valued_params Trunk.argument_spec →
     Trunk.build (<[f := v]> params) = Trunk.build (delete f params)) ∧
    (f ∈ optional_valued_params Vlag.argument_spec →
     Vlag.build (<[f := v]> params) = Vlag.build (delete f params)).
Proof.
  intros f v params Hv. split; intros Hin.
  - rewrite trunk_delete.
    vm_compute in Hin.
    each_member Hin;
      first [ rewrite !trunk_switch; unfold Trunk.switch_clause;
              by rewrite Hv
            | eapply trunk_same_text;
              [unfold Trunk.fields; in_list | by rewrite !text_field_falsy] ].
  - rewrite vlag_delete.
    vm_compute in Hin.
    each_member Hin;
      first [ rewrite !vlag_switch; unfold Vlag.switch_clause;
              by rewrite !text_field_falsy
            | eapply vlag_same_text;
              [unfold Vlag.fields; in_list
              | first [ by rewrite !text_field_falsy
                      | unfold Vlag.failover_field; by rewrite Hv ] ] ].
Qed.

Lemma falsy_value_same_as_absent_witness :
  truthy (VStr "") = false ∧ truthy (VInt 0) = false ∧
  "pn_ports" ∈ optional_valued_params Trunk.argument_spec ∧
  "pn_description" ∈ optional_valued_params Trunk.argument_spec ∧
  "pn_lacp_priority" ∈ optional_valued_params Trunk.argument_spec ∧
  "pn_peer_switch" ∈ optional_valued_params Vlag.argument_spec ∧
  Trunk.build (<["pn_ports" := VStr ""]> (trunk_params example_delete_trunk))
    = Trunk.build (delete "pn_ports" (trunk_params example_delete_trunk)) ∧
  Trunk.build (<["pn_description" := VStr ""]> (trunk_params example_create_trunk))
    = Trunk.build (delete "pn_description" (trunk_params example_create_trunk)) ∧
  Trunk.build (<["pn_lacp_priority" := VInt 0]> (trunk_params example_create_trunk))
    = Trunk.build (delete "pn_lacp_priority" (trunk_params example_create_trunk)) ∧
  Vlag.build (<["pn_peer_switch" := VStr ""]> (vlag_params example_create_vlag))
    = Vlag.build (delete "pn_peer_switch" (vlag_params example_create_vlag)).
Proof.
  assert ("pn_ports" ∈ optional_valued_params Trunk.argument_spec) as H1
    by (vm_compute; in_list).
  assert ("pn_description" ∈ optional_valued_params Trunk.argument_spec) as H2
    by (vm_compute; in_list).
  assert ("pn_lacp_priority" ∈ optional_valued_params Trunk.argument_spec)
    as H3 by (vm_compute; in_list).
  assert ("pn_peer_switch" ∈ optional_valued_params Vlag.argument_spec) as H4
    by (vm_compute; in_list).
  split; [reflexivity|]. split; [reflexivity|].
  split; [exact H1|]. split; [exact H2|]. split; [exact H3|].
  split; [exact H4|]. split_and!.
  - exact (proj1 (falsy_value_same_as_absent "pn_ports" (VStr "") _ eq_refl) H1).
  - exact (proj1 (falsy_value_same_as_absent "pn_description" (VStr "") _
                    eq_refl) H2).
  - exact (proj1 (falsy_value_same_as_absent "pn_lacp_priority" (VInt 0) _
                    eq_refl) H3).
  - exact (proj2 (falsy_value_same_as_absent "pn_peer_switch" (VStr "") _
                    eq_refl) H4).
Defined.

Lemma trunk_switch_clause_str v :
  v ≠ "" →
  Trunk.switch_clause (VStr v)
    = Ok (if bool_decide (v = "local") then " switch-local "
          else " switch " +:+ v).
Proof.
  intros H. unfold Trunk.switch_clause. rewrite truthy_str by done.
  destruct (decide (v = "local")) as [->|Hne].
  - done.
  - rewrite !bool_decide_eq_false_2; [done | done | congruence].
Qed.

Lemma vlag_switch_clause_str v :
  v ≠ "" → Vlag.switch_clause (VStr v) = Ok (" switch " +:+ v).
Proof. apply text_field_str. Qed.

(** C3, at the target switch ["local"].  The trunk module writes the
    single token [switch-local] between the credentials and the operation;
    the VLAG module has no such case and writes the two tokens [switch]
    and [local].  Both hold for every request, and are shown on the two
    delete examples run on the switch ["local"]. *)
Theorem vlag_switch_local_not_special :
  (∀ params : gmap string value,
     Trunk.build (<["pn_cliswitch" := VStr "local"]> params) =
     ss ← segments Trunk.fields params;
     Ok (Trunk.credentials params +:+ " switch-local " +:+
         Trunk.operation params +:+ flatten ss)) ∧
  (∀ params : gmap string value,
     Vlag.build (<["pn_cliswitch" := VStr "local"]> params) =
     cred ← Vlag.credentials params;
     op ← Vlag.operation params;
     ss ← segments Vlag.fields params;
     Ok (cred +:+ " switch local" +:+ op +:+ flatten ss)) ∧
  (∀ (world : Type) (Popen : list string → world → result completed * world)
     (w : world),
     popen_calls (Trunk.main Popen delete_trunk_on_local w)
       = [["/usr/bin/cli"; "--quiet"; "--user"; "admin:admin";
           "switch-local"; "trunk-delete"; "name"; "spine-to-leaf"]] ∧
     popen_calls (Vlag.main Popen delete_vlag_on_local w)
       = [["/usr/bin/cli"; "--quiet"; "--user"; "admin:admin";
           "switch"; "local"; "vlag-delete"; "name"; "spine-to-leaf"]]).
Proof.
  split_and!.
  - intros params. by rewrite trunk_switch.
  - intros params. rewrite vlag_switch.
    apply bind_ext; intros cred. by rewrite vlag_switch_clause_str.
  - intros world Popen w. split.
    + apply (trunk_main_spawns Popen _ w (trunk_params delete_trunk_on_local)
               ("/usr/bin/cli --quiet  --user admin:admin  switch-local " +:+
                " trunk-delete name spine-to-leaf "));
        vm_compute; reflexivity.
    + apply (vlag_main_spawns Popen _ w (vlag_params delete_vlag_on_local)
               ("/usr/bin/cli --quiet --user admin:admin  switch local" +:+
                " vlag-delete name spine-to-leaf"));
        vm_compute; reflexivity.
Qed.

(** C6, at a request that sets the LACP priority.  The priority is an
    integer, and appending it to the string [" lacp-priority "] raises
    [TypeError]: no command line is built for any positive priority, and
    the run of the trunk modification with priority 100 ends in the
    exception before any process is started. *)
Theorem trunk_lacp_priority_type_error :
  (∀ (params : gmap string value) (n : positive),
     ∃ e, Trunk.build (<["pn_lacp_priority" := VInt (Z.pos n)]> params)
          = Raise e) ∧
  Trunk.build (<["pn_lacp_priority" := VInt 100]>
                 (trunk_params example_create_trunk))
    = Raise TypeError ∧
  (∀ (world : Type) (Popen : list string → world → result completed * world)
     (w : world),
     Trunk.main Popen modify_trunk_priority w
       = {| popen_calls := []; ending := Traceback TypeError; after := w |}).
Proof.
  split_and!.
  - intros params n.
    assert (("pn_lacp_priority", text_field " lacp-priority ") ∈ Trunk.fields)
      as Hf by (unfold Trunk.fields; in_list).
    destruct (trunk_insert _ _ params Hf) as (t1 & t2 & _ & Hb).
    rewrite Hb.
    destruct (Trunk.head params) as [h|e]; simpl; [|by eexists].
    destruct (segments t1 params) as [a|e]; simpl; [|by eexists].
    by eexists.
  - vm_compute. reflexivity.
  - intros world Popen w.
    apply (trunk_main_raises Popen _ w (trunk_params modify_trunk_priority));
      vm_compute; reflexivity.
Qed.

(* ===================================================================== *)
(** ** A trunk-create request with a name and ports only *)
(* ===================================================================== *)

Lemma split_unwords ss tss :
  Forall2 (λ s ts, Shlex.split s = Ok ts) ss tss →
  Shlex.split (String.concat " " ss) = Ok (List.concat tss).
Proof.
  induction 1 as [|s ts ss tss Hs Hrest IH]; [done|].
  destruct ss as [|s' ss].
  - apply Forall2_nil_inv_l in Hrest as ->. simpl.
    by rewrite (right_id_L [] app).
  - change (String.concat " " (s :: s' :: ss))
      with (s +:+ " " +:+ String.concat " " (s' :: ss)).
    by rewrite (split_app_space s ts _ Hs), IH.
Qed.

Lemma create_trunk_checked u pw n ports :
  AnsibleModule Trunk.argument_spec Trunk.required_if
    (create_trunk_request u pw n ports)
  = Params (trunk_params (create_trunk_request u pw n ports)).
Proof. vm_compute. reflexivity. Qed.

Ltac eval_lookups :=
  repeat match goal with
  | |- context [?m !!! ?k] =>
      let v := eval vm_compute in (m !!! k) in
      change (m !!! k) with v
  end.

Lemma create_trunk_build u pw n ports :
  ports ≠ "" →
  Trunk.build (trunk_params (create_trunk_request u pw n ports))
  = Ok ("/usr/bin/cli --quiet  --user " +:+ u +:+ ":" +:+ pw +:+
        "  trunk-create name " +:+ n +:+ "  ports " +:+ ports).
Proof.
  intros Hp. rewrite trunk_build_table.
  unfold Trunk.switch_clause, Trunk.credentials, Trunk.operation, Trunk.fields.
  cbn [segments]. eval_lookups.
  rewrite (text_field_str _ ports Hp). simpl.
  by rewrite !append_assoc, ?append_empty_r.
Qed.

Lemma word_nonempty w : Shlex.word w = true → w ≠ "".
Proof. by intros H ->. Qed.

(** C5. A trunk-create task that gives only the credentials, the name and
    the ports (no switch, [pn_quiet] left at its default) passes the
    checks, and for a name and ports that are shell words the argument
    vector handed to [Popen] is the executable, [--quiet], [--user] and the
    credential tokens, followed by exactly [trunk-create name <name> ports
    <ports>]: no token of another parameter is in it. *)
Theorem trunk_create_name_ports_only :
  ∀ (world : Type) (Popen : list string → world → result completed * world)
    (w : world) (u pw n ports : string) (up : list string),
    Shlex.split (u +:+ ":" +:+ pw) = Ok up →
    Shlex.word n = true →
    Shlex.word ports = true →
    Trunk.build (trunk_params (create_trunk_request u pw n ports))
      = Ok ("/usr/bin/cli --quiet  --user " +:+ u +:+ ":" +:+ pw +:+
            "  trunk-create name " +:+ n +:+ "  ports " +:+ ports) ∧
    popen_calls (Trunk.main Popen (create_trunk_request u pw n ports) w)
      = [ ["/usr/bin/cli"; "--quiet"; "--user"] ++ up ++
          ["trunk-create"; "name"; n; "ports"; ports] ].
Proof.
  intros world Popen w u pw n ports up Hup Hn Hports.
  pose proof (create_trunk_build u pw n ports (word_nonempty _ Hports)) as Hb.
  split; [done|].
  apply (trunk_main_spawns Popen _ w _ _ _
           (create_trunk_checked u pw n ports) Hb).
  trans (Shlex.split
           (String.concat " "
              ["/usr/bin/cli"; "--quiet"; ""; "--user"; u +:+ ":" +:+ pw; "";
               "trunk-create"; "name"; n; ""; "ports"; ports])).
  { f_equal. simpl. by rewrite !append_assoc. }
  rewrite (split_unwords _
             [["/usr/bin/cli"]; ["--quiet"]; []; ["--user"]; up; [];
              ["trunk-create"]; ["name"]; [n]; []; ["ports"]; [ports]]).
  - done.
  - repeat (apply Forall2_cons; split;
            [first [ exact Hup | exact (split_word _ Hn)
                   | exact (split_word _ Hports) | vm_compute; reflexivity ]|]).
    apply Forall2_nil_2.
Qed.

Lemma trunk_create_name_ports_only_witness :
  Shlex.split ("admin" +:+ ":" +:+ "admin") = Ok ["admin:admin"] ∧
  Shlex.word "spine-to-leaf" = true ∧
  Shlex.word "11,12,13,14" = true ∧
  create_trunk_request "admin" "admin" "spine-to-leaf" "11,12,13,14"
    = example_create_trunk ∧
  ∀ (Popen : list string → unit → result completed * unit),
    popen_calls (Trunk.main Popen example_create_trunk tt)
      = [ ["/usr/bin/cli"; "--quiet"; "--user"; "admin:admin";
           "trunk-create"; "name"; "spine-to-leaf"; "ports"; "11,12,13,14"] ].
Proof.
  split; [reflexivity|]. split; [reflexivity|]. split; [reflexivity|].
  split; [reflexivity|]. intros Popen.
  exact (proj2 (trunk_create_name_ports_only unit Popen tt
                  "admin" "admin" "spine-to-leaf" "11,12,13,14"
                  ["admin:admin"] eq_refl eq_refl eq_refl)).
Defined.

(* ===================================================================== *)
(** ** Rejection of incomplete requests *)
(* ===================================================================== *)

Section Checks.
Variable spec : list (string * argspec).
Variable rules : list rule.

Lemma set_defaults_lookup_Some pre (m : gmap string value) k v :
  m !! k = Some v → set_defaults pre spec m !! k = Some v.
Proof.
  unfold set_defaults. revert m.
  induction spec as [|[k' a] sp IH]; intros m H; simpl; [done|].
  apply IH. destruct (m !! k') eqn:Hk'; [done|].
  destruct (pre && bool_decide (default a = VNone)); [done|].
  rewrite lookup_insert_ne; [done|]. intros ->. congruence.
Qed.

Lemma set_defaults_pre_lookup_None (m : gmap string value) k :
  Forall (λ ka : string * argspec, ka.1 = k → default ka.2 = VNone) spec →
  m !! k = None → set_defaults true spec m !! k = None.
Proof.
  unfold set_defaults. intros Hd. revert m.
  induction Hd as [|[k' a] sp Ha _ IH]; intros m H; simpl; [done|].
  apply IH. destruct (m !! k') eqn:Hk'; [done|].
  destruct (bool_decide (default a = VNone)) eqn:Hb; simpl; [done|].
  rewrite lookup_insert_ne; [done|]. intros ->.
  apply bool_decide_eq_false in Hb. apply Hb. by apply Ha.
Qed.

Lemma lenient_other cs v :
  v ≠ VStr "True" → v ≠ VStr "False" → lenient cs v = v.
Proof.
  intros Ht Hf. unfold lenient.
  destruct (bool_decide (v ∈ VStr <$> cs)); [done|]. cbv zeta.
  rewrite (bool_decide_eq_false_2 (v = VStr "False") Hf).
  by rewrite (bool_decide_eq_false_2 (v = VStr "True") Ht).
Qed.

Lemma lenient_choices_lookup_None (m : gmap string value) k :
  m !! k = None → lenient_choices spec m !! k = None.
Proof.
  unfold lenient_choices. revert m.
  induction spec as [|[k' a] sp IH]; intros m H; simpl; [done|].
  apply IH. destruct (choices a) as [cs|]; [|done].
  destruct (m !! k') eqn:Hk'; [|done].
  rewrite lookup_insert_ne; [done|]. intros ->. congruence.
Qed.

Lemma lenient_choices_lookup_other (m : gmap string value) k v :
  v ≠ VStr "True" → v ≠ VStr "False" →
  m !! k = Some v → lenient_choices spec m !! k = Some v.
Proof.
  unfold lenient_choices. intros Ht Hf. revert m.
  induction spec as [|[k' a] sp IH]; intros m H; simpl; [done|].
  apply IH. destruct (choices a) as [cs|]; [|done].
  destruct (m !! k') as [v'|] eqn:Hk'; [|done].
  destruct (decide (k' = k)) as [->|Hne].
  - rewrite lookup_insert_eq. simplify_eq. by rewrite lenient_other.
  - by rewrite lookup_insert_ne.
Qed.

(** A required parameter that the task does not give stops the
    constructor. *)
Lemma rejected_required args k a :
  (k, a) ∈ spec → required a = true →
  Forall (λ ka : string * argspec, ka.1 = k → default ka.2 = VNone) spec →
  given spec args k = None →
  ∃ msg, AnsibleModule spec rules args = FailJson msg.
Proof.
  intros Hin Hreq Hd Hnone. unfold AnsibleModule.
  destruct (unsupported _ _); [|by eexists].
  destruct (missing_required _ _) as [|k0 ks] eqn:E; [|by eexists].
  exfalso.
  assert (k ∈ missing_required spec
                (set_defaults true spec (handle_aliases spec args))) as Hk.
  { unfold missing_required. apply list_elem_of_fmap.
    exists (k, a). split; [done|].
    apply list_elem_of_In, filter_In. split; [by apply list_elem_of_In|].
    rewrite Hreq. simpl. apply bool_decide_eq_true_2.
    by apply set_defaults_pre_lookup_None. }
  rewrite E in Hk. by apply elem_of_nil in Hk.
Qed.

(** A [required_if] entry whose key has the entry's value and one of
    whose requirements the task does not give stops the constructor. *)
Lemma rejected_required_if args key val reqs r :
  (key, val, reqs) ∈ rules → r ∈ reqs →
  Forall (λ ka : string * argspec, ka.1 = r → default ka.2 = VNone) spec →
  val ≠ "True" → val ≠ "False" →
  given spec args key = Some (VStr val) →
  given spec args r = None →
  ∃ msg, AnsibleModule spec rules args = FailJson msg.
Proof.
  intros Hrule Hr Hd Ht Hf Hkey Hnone. unfold AnsibleModule.
  destruct (unsupported _ _); [|by eexists].
  destruct (missing_required _ _); [|by eexists].
  destruct (ill_typed _ _); [|by eexists].
  destruct (bad_choice _ _); [|by eexists].
  destruct (missing_if _ _) as [|[[k0 v0] ks] l] eqn:E; [|by eexists].
  exfalso.
  set (params := lenient_choices spec
                   (set_defaults true spec (handle_aliases spec args))) in *.
  assert (In (key, val,
              List.filter (λ r, bool_decide (params !! r = None)) reqs)
             (missing_if rules params)) as Hin.
  { unfold missing_if. apply filter_In. split.
    - apply in_map_iff. exists (key, val, reqs). split.
      + rewrite bool_decide_eq_true_2; [done|].
        apply lenient_choices_lookup_other; [congruence | congruence |].
        by apply set_defaults_lookup_Some.
      + by apply list_elem_of_In.
    - apply negb_true_iff, bool_decide_eq_false_2. intros Hnil.
      assert (In r (List.filter (λ r, bool_decide (params !! r = None)) reqs))
        as Hr'.
      { apply filter_In. split; [by apply list_elem_of_In|].
        apply bool_decide_eq_true_2.
        apply lenient_choices_lookup_None.
        by apply set_defaults_pre_lookup_None. }
      by rewrite Hnil in Hr'. }
  by rewrite E in Hin.
Qed.

End Checks.

Lemma trunk_given args k : given Trunk.argument_spec args k = args !! k.
Proof. reflexivity. Qed.

Lemma trunk_no_default k :
  k ≠ "pn_quiet" →
  Forall (λ ka : string * argspec, ka.1 = k → default ka.2 = VNone)
    Trunk.argument_spec.
Proof.
  intros Hk. unfold Trunk.argument_spec.
  repeat (apply Forall_cons; split; [simpl; by intros <- |]).
  apply Forall_nil_2.
Qed.

Lemma vlag_no_default k :
  k ≠ "pn_quiet" →
  Forall (λ ka : string * argspec, ka.1 = k → default ka.2 = VNone)
    Vlag.argument_spec.
Proof.
  intros Hk. unfold Vlag.argument_spec.
  repeat (apply Forall_cons; split; [simpl; by intros <- |]).
  apply Forall_nil_2.
Qed.

(** C4 as stated fails: the constructor's checks ask that a mandatory
    parameter be given, not that it have a value.  A trunk-create task
    whose ports are the empty string, a trunk-delete task whose name is
    null and a vlag-create task whose port is the empty string each pass
    the checks and hand an argument vector to [Popen]: the first without a
    [ports] clause, the second with the name [None], the third without a
    [port] clause. *)
Lemma mandatory_field_given_empty_runs :
  truthy (VStr "") = false ∧
  truthy VNone = false ∧
  popen_calls
    (Trunk.main prints_ok (<["pn_ports" := VStr ""]> example_create_trunk) tt)
  = [ ["/usr/bin/cli"; "--quiet"; "--user"; "admin:admin"; "trunk-create";
       "name"; "spine-to-leaf"] ] ∧
  popen_calls
    (Trunk.main prints_ok (<["pn_name" := VNone]> example_delete_trunk) tt)
  = [ ["/usr/bin/cli"; "--quiet"; "--user"; "admin:admin"; "trunk-delete";
       "name"; "None"] ] ∧
  popen_calls
    (Vlag.main prints_ok
       (create_vlag_request "admin" "admin" "spine-to-leaf" ""
          "spine02-to-leaf") tt)
  = [ ["/usr/bin/cli"; "--quiet"; "--user"; "admin:admin"; "vlag-create";
       "name"; "spine-to-leaf"; "peer-port"; "spine02-to-leaf"] ].
Proof.
  split; [reflexivity|]. split; [reflexivity|].
  split; [vm_compute; reflexivity|].
  split; vm_compute; reflexivity.
Qed.

(** C4, for a mandatory parameter that is not given at all.  A trunk task
    without a name, or a trunk-create task without ports, and a VLAG task
    without a name, or a vlag-create task without a port or a peer port
    (under the parameter's name or its alias), is rejected by the
    constructor's checks: [main] ends in [fail_json], nothing has been
    handed to [Popen], and the outside world is as it was. *)
Theorem missing_mandatory_field_rejected :
  ∀ (world : Type) (Popen : list string → world → result completed * world)
    (args : gmap string value) (w : world),
    (args !! "pn_name" = None ∨
     (args !! "pn_command" = Some (VStr "trunk-create") ∧
      args !! "pn_ports" = None) →
     popen_calls (Trunk.main Popen args w) = [] ∧
     after (Trunk.main Popen args w) = w ∧
     ∃ msg, ending (Trunk.main Popen args w) = Failed msg) ∧
    (given Vlag.argument_spec args "pn_name" = None ∨
     (given Vlag.argument_spec args "pn_command" = Some (VStr "vlag-create") ∧
      (given Vlag.argument_spec args "pn_port" = None ∨
       given Vlag.argument_spec args "pn_peer_port" = None)) →
     popen_calls (Vlag.main Popen args w) = [] ∧
     after (Vlag.main Popen args w) = w ∧
     ∃ msg, ending (Vlag.main Popen args w) = Failed msg).
Proof.
  intros world Popen args w. split; intros H.
  - assert (∃ msg, AnsibleModule Trunk.argument_spec Trunk.required_if args
                   = FailJson msg) as [msg Hmsg].
    { destruct H as [Hname|[Hcmd Hports]].
      - apply (rejected_required _ _ _ "pn_name" (req (opt TStr)));
          [unfold Trunk.argument_spec; in_list | done
          | by apply trunk_no_default | done].
      - apply (rejected_required_if _ _ _ "pn_command" "trunk-create"
                 ["pn_name"; "pn_ports"] "pn_ports");
          [unfold Trunk.required_if; in_list | in_list
          | by apply trunk_no_default | done | done | done | done]. }
    rewrite (trunk_main_rejected Popen args w msg Hmsg). eauto.
  - assert (∃ msg, AnsibleModule Vlag.argument_spec Vlag.required_if args
                   = FailJson msg) as [msg Hmsg].
    { destruct H as [Hname|[Hcmd [Hport|Hport]]].
      - apply (rejected_required _ _ _ "pn_name"
                 (alias ["name"] (req (opt TStr))));
          [unfold Vlag.argument_spec; in_list | done
          | by apply vlag_no_default | done].
      - apply (rejected_required_if _ _ _ "pn_command" "vlag-create"
                 ["pn_name"; "pn_port"; "pn_peer_port"] "pn_port");
          [unfold Vlag.required_if; in_list | in_list
          | by apply vlag_no_default | done | done | done | done].
      - apply (rejected_required_if _ _ _ "pn_command" "vlag-create"
                 ["pn_name"; "pn_port"; "pn_peer_port"] "pn_peer_port");
          [unfold Vlag.required_if; in_list | in_list
          | by apply vlag_no_default | done | done | done | done]. }
    rewrite (vlag_main_rejected Popen args w msg Hmsg). eauto.
Qed.

Lemma missing_mandatory_field_rejected_witness :
  delete "pn_ports" example_create_trunk !! "pn_command"
    = Some (VStr "trunk-create") ∧
  delete "pn_ports" example_create_trunk !! "pn_ports" = None ∧
  given Vlag.argument_spec (delete "pn_peer_port" example_create_vlag)
    "pn_command" = Some (VStr "vlag-create") ∧
  given Vlag.argument_spec (delete "pn_peer_port" example_create_vlag)
    "pn_peer_port" = None ∧
  ∀ (Popen : list string → unit → result completed * unit),
    popen_calls (Trunk.main Popen (delete "pn_ports" example_create_trunk) tt)
      = [] ∧
    popen_calls
      (Vlag.main Popen (delete "pn_peer_port" example_create_vlag) tt) = [].
Proof.
  assert (delete "pn_ports" example_create_trunk !! "pn_command"
          = Some (VStr "trunk-create")) as H1 by (vm_compute; reflexivity).
  assert (delete "pn_ports" example_create_trunk !! "pn_ports" = None) as H2
    by (vm_compute; reflexivity).
  assert (given Vlag.argument_spec (delete "pn_peer_port" example_create_vlag)
            "pn_command" = Some (VStr "vlag-create")) as H3
    by (vm_compute; reflexivity).
  assert (given Vlag.argument_spec (delete "pn_peer_port" example_create_vlag)
            "pn_peer_port" = None) as H4 by (vm_compute; reflexivity).
  split; [exact H1|]. split; [exact H2|]. split; [exact H3|].
  split; [exact H4|]. intros Popen. split.
  - exact (proj1 (proj1 (missing_mandatory_field_rejected unit Popen
                           (delete "pn_ports" example_create_trunk) tt)
                    (or_intror (conj H1 H2)))).
  - exact (proj1 (proj2 (missing_mandatory_field_rejected unit Popen
                           (delete "pn_peer_port" example_create_vlag) tt)
                    (or_intror (conj H3 (or_intror H4))))).
Defined.

(* ===================================================================== *)
(** ** The report *)
(* ===================================================================== *)

Lemma rstrip_blank : rstrip CRLF LF = "".
Proof. reflexivity. Qed.

(** C1 as stated fails: standard error holding a single line feed is empty
    after trimming, yet both modules report a failure, with an empty
    [stderr] text. *)
Lemma failure_on_blank_stderr :
  rstrip CRLF LF = "" ∧
  Trunk.respond "cli" "done" LF
    = {[ "command" := VStr "cli"; "stderr" := VStr "";
         "changed" := VBool false ]} ∧
  Vlag.respond "cli" "done" LF
    = {[ "command" := VStr "cli"; "stderr" := VStr ""; "rc" := VInt 1;
         "changed" := VBool false ]} ∧
  ¬ (is_failure (Trunk.respond "cli" "done" LF) ↔ rstrip CRLF LF ≠ "") ∧
  ¬ (is_failure (Vlag.respond "cli" "done" LF) ↔ rstrip CRLF LF ≠ "").
Proof.
  split; [reflexivity|]. split; [reflexivity|]. split; [reflexivity|].
  split; intros [H _]; by apply H.
Qed.

Lemma truthy_str_decide (s : string) :
  truthy (VStr s) = negb (bool_decide (s = "")).
Proof.
  simpl. f_equal. destruct (decide (s = "")) as [->|Hne].
  - by rewrite bool_decide_eq_true_2.
  - rewrite bool_decide_eq_false_2 by done. by apply String.eqb_neq.
Qed.

(** C1, amended.  The report is a failure exactly when the captured
    standard error is non-empty as captured, before trimming, whatever the
    exit status: it then carries the command line, the standard error with
    trailing carriage returns and line feeds removed, and [changed=False]
    (and [rc=1] for VLAG).  Otherwise it is a success carrying the command
    line, the trimmed standard output and [changed=True] (and [rc=0] for
    VLAG).  A subprocess interface that forgets the exit status gives the
    same runs. *)
Theorem report_follows_raw_stderr :
  (∀ cli out err : string,
     Trunk.respond cli out err
       = (if bool_decide (err = "") then
            {[ "command" := VStr cli; "stdout" := VStr (rstrip CRLF out);
               "changed" := VBool true ]}
          else
            {[ "command" := VStr cli; "stderr" := VStr (rstrip CRLF err);
               "changed" := VBool false ]}) ∧
     Vlag.respond cli out err
       = (if bool_decide (err = "") then
            {[ "command" := VStr cli; "stdout" := VStr (rstrip CRLF out);
               "rc" := VInt 0; "changed" := VBool true ]}
          else
            {[ "command" := VStr cli; "stderr" := VStr (rstrip CRLF err);
               "rc" := VInt 1; "changed" := VBool false ]}) ∧
     (is_failure (Trunk.respond cli out err) ↔ err ≠ "") ∧
     (is_failure (Vlag.respond cli out err) ↔ err ≠ "")) ∧
  (∀ (world : Type) (Popen : list string → world → result completed * world)
     (args : gmap string value) (w : world),
     Trunk.main (forget_status Popen) args w = Trunk.main Popen args w ∧
     Vlag.main (forget_status Popen) args w = Vlag.main Popen args w).
Proof.
  split.
  - intros cli out err.
    unfold Trunk.respond, Vlag.respond, is_failure.
    rewrite truthy_str_decide.
    destruct (decide (err = "")) as [->|Hne].
    + rewrite !bool_decide_eq_true_2 by done. simpl.
      split_and!; try done; split; by intros.
    + rewrite !bool_decide_eq_false_2 by done. simpl.
      split_and!; try done; split; by intros.
  - intros world Popen args w.
    unfold Trunk.main, Vlag.main, forget_status. split.
    + destruct (AnsibleModule _ _ _); [|done].
      destruct (Trunk.build _); [|done].
      destruct (Shlex.split _) as [argv|]; [|done].
      by destruct (Popen argv w) as [[c|e] w'].
    + destruct (AnsibleModule _ _ _); [|done].
      destruct (Vlag.build _); [|done].
      destruct (Shlex.split _) as [argv|]; [|done].
      by destruct (Popen argv w) as [[c|e] w'].
Qed.

Lemma report_follows_raw_stderr_witness :
  "bad port" ≠ "" ∧
  is_failure (Trunk.respond "cli" "" "bad port") ∧
  is_failure (Vlag.respond "cli" "" "bad port") ∧
  Trunk.respond "cli" "ok" ""
    = {[ "command" := VStr "cli"; "stdout" := VStr "ok";
         "changed" := VBool true ]}.
Proof.
  assert ("bad port" ≠ "") as H by discriminate.
  destruct (proj1 report_follows_raw_stderr "cli" "" "bad port")
    as (_ & _ & Ht & Hv).
  split; [exact H|].
  split; [exact (proj2 Ht H)|]. split; [exact (proj2 Hv H)|].
  exact (proj1 (proj1 report_follows_raw_stderr "cli" "ok" "")).
Defined.

(* ===================================================================== *)
(** ** Determinism *)
(* ===================================================================== *)

Lemma trunk_respond_command cli out err :
  Trunk.respond cli out err !! "command" = Some (VStr cli).
Proof.
  unfold Trunk.respond. destruct (truthy (VStr err)); apply lookup_insert_eq.
Qed.

Lemma vlag_respond_command cli out err :
  Vlag.respond cli out err !! "command" = Some (VStr cli).
Proof.
  unfold Vlag.respond. destruct (truthy (VStr err)); apply lookup_insert_eq.
Qed.

(** C9. The command is a function of the request alone.  Two runs of
    [main] on the same task, with any two subprocess interfaces in any two
    states of the outside world, hand the same argument vectors to [Popen],
    and whenever both report, they report the same command line; in
    particular a second run right after the first one, in the world the
    first one left, repeats its argument vector. *)
Theorem build_deterministic :
  ∀ (world1 world2 : Type)
    (Popen1 : list string → world1 → result completed * world1)
    (Popen2 : list string → world2 → result completed * world2)
    (args : gmap string value) (w1 : world1) (w2 : world2),
    (popen_calls (Trunk.main Popen1 args w1)
       = popen_calls (Trunk.main Popen2 args w2) ∧
     match ending (Trunk.main Popen1 args w1),
           ending (Trunk.main Popen2 args w2) with
     | ExitJson r1, ExitJson r2 => r1 !! "command" = r2 !! "command"
     | _, _ => True
     end ∧
     popen_calls (Trunk.main Popen1 args (after (Trunk.main Popen1 args w1)))
       = popen_calls (Trunk.main Popen1 args w1)) ∧
    (popen_calls (Vlag.main Popen1 args w1)
       = popen_calls (Vlag.main Popen2 args w2) ∧
     match ending (Vlag.main Popen1 args w1),
           ending (Vlag.main Popen2 args w2) with
     | ExitJson r1, ExitJson r2 => r1 !! "command" = r2 !! "command"
     | _, _ => True
     end ∧
     popen_calls (Vlag.main Popen1 args (after (Vlag.main Popen1 args w1)))
       = popen_calls (Vlag.main Popen1 args w1)).
Proof.
  intros world1 world2 Popen1 Popen2 args w1 w2. split.
  - unfold Trunk.main.
    destruct (AnsibleModule _ _ _); [|done].
    destruct (Trunk.build _) as [cli|]; [|done].
    destruct (Shlex.split _) as [argv|]; [|done].
    destruct (Popen1 argv w1) as [[c1|e1] w1'] eqn:H1;
      destruct (Popen2 argv w2) as [[c2|e2] w2'];
      simpl; rewrite ?trunk_respond_command;
      (split_and!; [done | done |]);
      by destruct (Popen1 argv w1') as [[c3|e3] w3].
  - unfold Vlag.main.
    destruct (AnsibleModule _ _ _); [|done].
    destruct (Vlag.build _) as [cli|]; [|done].
    destruct (Shlex.split _) as [argv|]; [|done].
    destruct (Popen1 argv w1) as [[c1|e1] w1'] eqn:H1;
      destruct (Popen2 argv w2) as [[c2|e2] w2'];
      simpl; rewrite ?vlag_respond_command;
      (split_and!; [done | done |]);
      by destruct (Popen1 argv w1') as [[c3|e3] w3].
Qed.

(* ===================================================================== *)
(** ** String-valued parameters, the switch clause and the quiet flag *)
(* ===================================================================== *)

Lemma split_insert pre mid post tp tm tq :
  Shlex.split pre = Ok tp → Shlex.split mid = Ok tm →
  Shlex.split post = Ok tq → spaced post →
  Shlex.split (pre +:+ " " +:+ mid +:+ post) = Ok (tp ++ tm ++ tq).
Proof.
  intros Hp Hm Hq [->|[post' ->]].
  - assert (tq = []) as -> by (vm_compute in Hq; by simplify_eq).
    rewrite append_empty_r, (split_app_space pre tp _ Hp), Hm.
    simpl. by rewrite (right_id_L [] app).
  - rewrite split_space_l in Hq.
    by rewrite (split_app_space pre tp _ Hp), (split_app_space mid tm _ Hm), Hq.
Qed.

(** X1. A string-valued parameter with a non-empty value puts its word and
    the value, verbatim, into the command line at one place; the argument
    vector gains the word followed by the tokens of the value, so a value
    with blanks gives several arguments and a quoted value one. *)
Theorem text_fields_render :
  ∀ k name v (params : gmap string value),
    v ≠ "" →
    ((k, name) ∈ trunk_text_flags →
     ∀ base, Trunk.build (<[k := VNone]> params) = Ok base →
     ∃ pre post,
       base = pre +:+ post ∧
       Trunk.build (<[k := VStr v]> params)
         = Ok (pre +:+ " " +:+ name +:+ " " +:+ v +:+ post) ∧
       ∀ tp tv tq,
         Shlex.split pre = Ok tp → Shlex.split v = Ok tv →
         Shlex.split post = Ok tq →
         Shlex.split (pre +:+ " " +:+ name +:+ " " +:+ v +:+ post)
           = Ok (tp ++ name :: tv ++ tq)) ∧
    ((k, name) ∈ vlag_text_flags →
     ∀ base, Vlag.build (<[k := VNone]> params) = Ok base →
     ∃ pre post,
       base = pre +:+ post ∧
       Vlag.build (<[k := VStr v]> params)
         = Ok (pre +:+ " " +:+ name +:+ " " +:+ v +:+ post) ∧
       ∀ tp tv tq,
         Shlex.split pre = Ok tp → Shlex.split v = Ok tv →
         Shlex.split post = Ok tq →
         Shlex.split (pre +:+ " " +:+ name +:+ " " +:+ v +:+ post)
           = Ok (tp ++ name :: tv ++ tq)).
Proof.
  intros k name v params Hv. split; intros Hin base Hbase.
  - assert (Shlex.word name = true ∧
            (k, text_field (" " +:+ name +:+ " ")) ∈ Trunk.fields)
      as (Hw & Hf).
    { unfold trunk_text_flags in Hin.
      each_member Hin; (split; [done | unfold Trunk.fields; in_list]). }
    destruct (trunk_field _ _ _ _ Hf Hbase) as (pre & post & -> & Hsp & Hb).
    exists pre, post. split_and!; [done | |].
    + by rewrite (Hb (VStr v) _ (text_field_str _ v Hv)), !append_assoc.
    + intros tp tv tq Hp Htv Hq.
      pose proof (split_insert pre (name +:+ " " +:+ v) post tp (name :: tv) tq
                    Hp) as H.
      rewrite !append_assoc in H. apply H; [|done|done].
      by rewrite (split_word_space name v Hw), Htv.
  - assert (Shlex.word name = true ∧
            (k, text_field (" " +:+ name +:+ " ")) ∈ Vlag.fields)
      as (Hw & Hf).
    { unfold vlag_text_flags in Hin.
      each_member Hin; (split; [done | unfold Vlag.fields; in_list]). }
    destruct (vlag_field _ _ _ _ Hf Hbase) as (pre & post & -> & Hsp & Hb).
    exists pre, post. split_and!; [done | |].
    + by rewrite (Hb (VStr v) _ (text_field_str _ v Hv)), !append_assoc.
    + intros tp tv tq Hp Htv Hq.
      pose proof (split_insert pre (name +:+ " " +:+ v) post tp (name :: tv) tq
                    Hp) as H.
      rewrite !append_assoc in H. apply H; [|done|done].
      by rewrite (split_word_space name v Hw), Htv.
Qed.

Lemma text_fields_render_witness :
  "uplink to core" ≠ "" ∧
  ("pn_description", "description") ∈ trunk_text_flags ∧
  Shlex.split "uplink to core" = Ok ["uplink"; "to"; "core"] ∧
  ∃ pre post,
    Trunk.build (<["pn_description" := VStr "uplink to core"]>
                   (trunk_params example_create_trunk))
      = Ok (pre +:+ " description uplink to core" +:+ post) ∧
    ∀ tp tq,
      Shlex.split pre = Ok tp → Shlex.split post = Ok tq →
      Shlex.split (pre +:+ " description uplink to core" +:+ post)
        = Ok (tp ++ ["description"; "uplink"; "to"; "core"] ++ tq).
Proof.
  assert ("uplink to core" ≠ "") as Hv by discriminate.
  assert (("pn_description", "description") ∈ trunk_text_flags) as Hin
    by (unfold trunk_text_flags; in_list).
  assert (Shlex.split "uplink to core" = Ok ["uplink"; "to"; "core"]) as Hs
    by (vm_compute; reflexivity).
  assert (Trunk.build (<["pn_description" := VNone]>
                         (trunk_params example_create_trunk))
          = Ok ("/usr/bin/cli --quiet  --user admin:admin  trunk-create name "
                +:+ "spine-to-leaf  ports 11,12,13,14")) as Hbase
    by (vm_compute; reflexivity).
  split; [exact Hv|]. split; [exact Hin|]. split; [exact Hs|].
  destruct (proj1 (text_fields_render "pn_description" "description"
                     "uplink to core" _ Hv) Hin _ Hbase)
    as (pre & post & _ & H2 & H3).
  exists pre, post. split; [exact H2|].
  intros tp tq Hp Hq. exact (H3 tp _ tq Hp Hs Hq).
Defined.

Lemma trunk_operation_spaced (params : gmap string value) post :
  spaced (Trunk.operation params +:+ post).
Proof. right. unfold Trunk.operation. eexists. by rewrite !append_assoc. Qed.

Lemma vlag_operation_spaced (params : gmap string value) op post :
  Vlag.operation params = Ok op → spaced (op +:+ post).
Proof.
  unfold Vlag.operation. intros H.
  destruct (params !!! "pn_command"); simplify_eq/=.
  destruct (params !!! "pn_name"); simplify_eq/=.
  right. eexists. by rewrite !append_assoc.
Qed.

(** X2. A non-empty target switch puts its clause between the credentials
    and the operation: [ switch-local ] (trunk, value ["local"]) or
    [ switch <value>] (trunk otherwise, VLAG always).  For a one-word value
    the argument vector gains the token [switch-local], respectively the
    two tokens [switch] and the value, right after the credential tokens. *)
Theorem switch_clause_after_credentials :
  ∀ (params : gmap string value) v,
    v ≠ "" →
    (∀ base,
       Trunk.build (<["pn_cliswitch" := VNone]> params) = Ok base →
       ∃ post,
         base = Trunk.credentials params +:+ Trunk.operation params +:+ post ∧
         Trunk.build (<["pn_cliswitch" := VStr v]> params)
           = Ok (Trunk.credentials params +:+
                 (if bool_decide (v = "local") then " switch-local "
                  else " switch " +:+ v) +:+
                 Trunk.operation params +:+ post) ∧
         ∀ tc tq,
           Shlex.word v = true →
           Shlex.split (Trunk.credentials params) = Ok tc →
           Shlex.split (Trunk.operation params +:+ post) = Ok tq →
           Shlex.split (Trunk.credentials params +:+
                        (if bool_decide (v = "local") then " switch-local "
                         else " switch " +:+ v) +:+
                        Trunk.operation params +:+ post)
             = Ok (tc ++ (if bool_decide (v = "local") then ["switch-local"]
                          else ["switch"; v]) ++ tq)) ∧
    (∀ base,
       Vlag.build (<["pn_cliswitch" := VNone]> params) = Ok base →
       ∃ cred op post,
         Vlag.credentials params = Ok cred ∧
         Vlag.operation params = Ok op ∧
         base = cred +:+ op +:+ post ∧
         Vlag.build (<["pn_cliswitch" := VStr v]> params)
           = Ok (cred +:+ " switch " +:+ v +:+ op +:+ post) ∧
         ∀ tc tq,
           Shlex.word v = true →
           Shlex.split cred = Ok tc →
           Shlex.split (op +:+ post) = Ok tq →
           Shlex.split (cred +:+ " switch " +:+ v +:+ op +:+ post)
             = Ok (tc ++ ["switch"; v] ++ tq)).
Proof.
  intros params v Hv. split; intros base Hbase.
  - rewrite trunk_switch in Hbase. rewrite trunk_switch.
    rewrite (trunk_switch_clause_str v Hv).
    change (Trunk.switch_clause VNone) with (Ok (A:=string) "") in Hbase.
    rewrite !bind_ok in *.
    destruct (segments Trunk.fields params) as [ss|]; simplify_eq/=.
    exists (flatten ss). split_and!; [done | done |].
    intros tc tq Hw Hc Hq. case_bool_decide as Hl.
    + pose proof (split_insert (Trunk.credentials params) "switch-local"
                    (" " +:+ Trunk.operation params +:+ flatten ss)
                    tc ["switch-local"] tq Hc eq_refl) as H.
      rewrite ?append_assoc in H. apply H.
      * by rewrite split_space_l.
      * right. by eexists.
    + pose proof (split_insert (Trunk.credentials params) ("switch " +:+ v)
                    (Trunk.operation params +:+ flatten ss)
                    tc ["switch"; v] tq Hc) as H.
      rewrite ?append_assoc in H. apply H; [|done|].
      * change ("switch " +:+ v) with ("switch" +:+ " " +:+ v).
        by rewrite (split_word_space "switch" v eq_refl), (split_word v Hw).
      * apply trunk_operation_spaced.
  - rewrite vlag_switch in Hbase. rewrite vlag_switch.
    rewrite (vlag_switch_clause_str v Hv).
    change (Vlag.switch_clause VNone) with (Ok (A:=string) "") in Hbase.
    destruct (segments Vlag.fields params) as [ss|];
      destruct (Vlag.credentials params) as [cred|];
      destruct (Vlag.operation params) as [op|] eqn:Hop; simplify_eq/=.
    exists cred, op, (flatten ss). split_and!; [done | done | done | |].
    + by rewrite !append_assoc.
    + intros tc tq Hw Hc Hq.
      pose proof (split_insert cred ("switch " +:+ v) (op +:+ flatten ss)
                    tc ["switch"; v] tq Hc) as H.
      rewrite ?append_assoc in H. apply H; [|done|].
      * change ("switch " +:+ v) with ("switch" +:+ " " +:+ v).
        by rewrite (split_word_space "switch" v eq_refl), (split_word v Hw).
      * by eapply vlag_operation_spaced.
Qed.

Lemma switch_clause_after_credentials_witness :
  "leaf01" ≠ "" ∧
  Trunk.build (<["pn_cliswitch" := VNone]> (trunk_params example_delete_trunk))
    = Ok ("/usr/bin/cli --quiet  --user admin:admin  trunk-delete name " +:+
          "spine-to-leaf ") ∧
  Vlag.build (<["pn_cliswitch" := VNone]> (vlag_params example_delete_vlag))
    = Ok ("/usr/bin/cli --quiet --user admin:admin  vlag-delete name " +:+
          "spine-to-leaf") ∧
  (∃ post,
     Trunk.build (<["pn_cliswitch" := VStr "leaf01"]>
                    (trunk_params example_delete_trunk))
       = Ok (Trunk.credentials (trunk_params example_delete_trunk) +:+
             " switch leaf01" +:+
             Trunk.operation (trunk_params example_delete_trunk) +:+ post)) ∧
  (∃ cred op post,
     Vlag.credentials (vlag_params example_delete_vlag) = Ok cred ∧
     Vlag.operation (vlag_params example_delete_vlag) = Ok op ∧
     Vlag.build (<["pn_cliswitch" := VStr "leaf01"]>
                   (vlag_params example_delete_vlag))
       = Ok (cred +:+ " switch leaf01" +:+ op +:+ post)).
Proof.
  assert ("leaf01" ≠ "") as Hv by discriminate.
  assert (Trunk.build (<["pn_cliswitch" := VNone]>
                         (trunk_params example_delete_trunk))
          = Ok ("/usr/bin/cli --quiet  --user admin:admin  trunk-delete name "
                +:+ "spine-to-leaf ")) as Hb by (vm_compute; reflexivity).
  assert (Vlag.build (<["pn_cliswitch" := VNone]>
                        (vlag_params example_delete_vlag))
          = Ok ("/usr/bin/cli --quiet --user admin:admin  vlag-delete name "
                +:+ "spine-to-leaf")) as Hb' by (vm_compute; reflexivity).
  split; [exact Hv|]. split; [exact Hb|]. split; [exact Hb'|]. split.
  - destruct (proj1 (switch_clause_after_credentials _ "leaf01" Hv) _ Hb)
      as (post & _ & H2 & _).
    exists post. exact H2.
  - destruct (proj2 (switch_clause_after_credentials _ "leaf01" Hv) _ Hb')
      as (cred & op & post & H1 & H2 & _ & H4 & _).
    exists cred, op, post. split; [exact H1|]. split; [exact H2|]. exact H4.
Defined.

Lemma trunk_quiet (params : gmap string value) v :
  Trunk.build (<["pn_quiet" := v]> params) =
  sw ← Trunk.switch_clause (params !!! "pn_cliswitch");
  ss ← segments Trunk.fields params;
  Ok ("/usr/bin/cli" +:+ (if is_True v then " --quiet " else "") +:+
      " --user " +:+ str (params !!! "pn_cliusername") +:+ ":" +:+
      str (params !!! "pn_clipassword") +:+ " " +:+ sw +:+
      Trunk.operation params +:+ flatten ss).
Proof.
  rewrite trunk_build_table.
  rewrite segments_insert_ne by (apply (bool_decide_unpack _); by vm_compute).
  unfold Trunk.credentials, Trunk.operation.
  rewrite lookup_total_insert_eq, !lookup_total_insert_ne by done.
  apply bind_ext; intros sw. apply bind_ext; intros ss.
  by rewrite !append_assoc.
Qed.

Lemma vlag_quiet (params : gmap string value) v :
  Vlag.build (<["pn_quiet" := v]> params) =
  a ← concat (if is_True v then "/usr/bin/cli --quiet --user "
              else "/usr/bin/cli --user ") (params !!! "pn_cliusername");
  b ← concat (a +:+ ":") (params !!! "pn_clipassword");
  sw ← Vlag.switch_clause (params !!! "pn_cliswitch");
  op ← Vlag.operation params;
  ss ← segments Vlag.fields params;
  Ok ((b +:+ " ") +:+ sw +:+ op +:+ flatten ss).
Proof.
  rewrite vlag_build_table.
  rewrite segments_insert_ne by (apply (bool_decide_unpack _); by vm_compute).
  unfold Vlag.credentials, Vlag.operation.
  rewrite lookup_total_insert_eq, !lookup_total_insert_ne by done.
  rewrite bind_assoc. apply bind_ext; intros a.
  rewrite bind_assoc. by apply bind_ext; intros b.
Qed.

(** X3. [--quiet] is written exactly when [pn_quiet] is [True]: with any
    other value the command line is that of [pn_quiet=False], and the
    command line of [pn_quiet=True] is the same text with [--quiet] put in
    after the executable.  The argument vectors differ by that one token,
    in second place. *)
Theorem quiet_flag_only_when_true :
  ∀ (params : gmap string value) cli,
    (Trunk.build (<["pn_quiet" := VBool false]> params) = Ok cli →
     ∃ rest,
       cli = "/usr/bin/cli" +:+ rest ∧
       Trunk.build (<["pn_quiet" := VBool true]> params)
         = Ok ("/usr/bin/cli --quiet " +:+ rest) ∧
       (∀ v, is_True v = false →
             Trunk.build (<["pn_quiet" := v]> params) = Ok cli) ∧
       ∀ t, Shlex.split rest = Ok t →
            Shlex.split cli = Ok ("/usr/bin/cli" :: t) ∧
            Shlex.split ("/usr/bin/cli --quiet " +:+ rest)
              = Ok ("/usr/bin/cli" :: "--quiet" :: t)) ∧
    (Vlag.build (<["pn_quiet" := VBool false]> params) = Ok cli →
     ∃ rest,
       cli = "/usr/bin/cli" +:+ rest ∧
       Vlag.build (<["pn_quiet" := VBool true]> params)
         = Ok ("/usr/bin/cli --quiet" +:+ rest) ∧
       (∀ v, is_True v = false →
             Vlag.build (<["pn_quiet" := v]> params) = Ok cli) ∧
       ∀ t, Shlex.split rest = Ok t →
            Shlex.split cli = Ok ("/usr/bin/cli" :: t) ∧
            Shlex.split ("/usr/bin/cli --quiet" +:+ rest)
              = Ok ("/usr/bin/cli" :: "--quiet" :: t)).
Proof.
  intros params cli. split; intros Hcli.
  - rewrite trunk_quiet in Hcli.
    destruct (segments Trunk.fields params) as [ss|] eqn:Hss;
      destruct (Trunk.switch_clause (params !!! "pn_cliswitch")) as [sw|]
        eqn:Hsw; simpl in Hcli; simplify_eq.
    set (r0 := "--user " +:+ str (params !!! "pn_cliusername") +:+ ":" +:+
               str (params !!! "pn_clipassword") +:+ " " +:+ sw +:+
               Trunk.operation params +:+ flatten ss).
    exists (" " +:+ r0). split_and!; [done | | |].
    + rewrite trunk_quiet, Hsw, Hss. done.
    + intros v Hv. rewrite trunk_quiet, Hsw, Hss, Hv. done.
    + intros t Ht. rewrite split_space_l in Ht. split.
      * change (Shlex.split ("/usr/bin/cli" +:+ " " +:+ r0)
                = Ok ("/usr/bin/cli" :: t)).
        by rewrite (split_word_space "/usr/bin/cli" _ eq_refl), Ht.
      * change (Shlex.split
                  ("/usr/bin/cli" +:+ " " +:+ "--quiet" +:+ " " +:+ " " +:+ r0)
                = Ok ("/usr/bin/cli" :: "--quiet" :: t)).
        rewrite (split_word_space "/usr/bin/cli" _ eq_refl).
        rewrite (split_word_space "--quiet" _ eq_refl).
        by rewrite split_space_l, Ht.
  - rewrite vlag_quiet in Hcli.
    destruct (segments Vlag.fields params) as [ss|] eqn:Hss;
      destruct (params !!! "pn_cliusername") as [| | |u] eqn:Hu;
      destruct (params !!! "pn_clipassword") as [| | |pw] eqn:Hpw;
      destruct (Vlag.switch_clause (params !!! "pn_cliswitch")) as [sw|]
        eqn:Hsw;
      destruct (Vlag.operation params) as [op|] eqn:Hop;
      simpl in Hcli; simplify_eq.
    set (r0 := "--user " +:+ u +:+ ":" +:+ pw +:+ " " +:+ sw +:+ op +:+
               flatten ss).
    exists (" " +:+ r0). split_and!.
    + unfold r0. by rewrite !append_assoc.
    + rewrite vlag_quiet, Hu, Hpw, Hsw, Hop, Hss. simpl.
      unfold r0. by rewrite !append_assoc.
    + intros v Hv. rewrite vlag_quiet, Hu, Hpw, Hsw, Hop, Hss, Hv. simpl.
      unfold r0. by rewrite !append_assoc.
    + intros t Ht. rewrite split_space_l in Ht. split.
      * rewrite !append_assoc.
        change (Shlex.split ("/usr/bin/cli" +:+ " " +:+ r0)
                = Ok ("/usr/bin/cli" :: t)).
        by rewrite (split_word_space "/usr/bin/cli" _ eq_refl), Ht.
      * change (Shlex.split
                  ("/usr/bin/cli" +:+ " " +:+ "--quiet" +:+ " " +:+ r0)
                = Ok ("/usr/bin/cli" :: "--quiet" :: t)).
        rewrite (split_word_space "/usr/bin/cli" _ eq_refl).
        by rewrite (split_word_space "--quiet" _ eq_refl), Ht.
Qed.

Lemma quiet_flag_only_when_true_witness :
  Trunk.build (<["pn_quiet" := VBool false]> (trunk_params example_delete_trunk))
    = Ok ("/usr/bin/cli --user admin:admin  trunk-delete name " +:+
          "spine-to-leaf ") ∧
  ∃ rest,
    Trunk.build (<["pn_quiet" := VBool true]> (trunk_params example_delete_trunk))
      = Ok ("/usr/bin/cli --quiet " +:+ rest) ∧
    Trunk.build (<["pn_quiet" := VNone]> (trunk_params example_delete_trunk))
      = Ok ("/usr/bin/cli" +:+ rest).
Proof.
  assert (Trunk.build (<["pn_quiet" := VBool false]>
                         (trunk_params example_delete_trunk))
          = Ok ("/usr/bin/cli --user admin:admin  trunk-delete name " +:+
                "spine-to-leaf ")) as Hb by (vm_compute; reflexivity).
  split; [exact Hb|].
  destruct (proj1 (quiet_flag_only_when_true _ _) Hb)
    as (rest & H1 & H2 & H3 & _).
  exists rest. split; [exact H2|].
  rewrite (H3 VNone eq_refl). f_equal. exact H1.
Defined.

(* ===================================================================== *)
(** ** The argument vector, statement by statement *)
(* ===================================================================== *)

Lemma segments_all_spaced tbl (params : gmap string value) ss :
  Forall (λ ks : string * (value → result string),
            ∀ v s, ks.2 v = Ok s → spaced s) tbl →
  segments tbl params = Ok ss → Forall spaced ss.
Proof.
  intros H. revert ss.
  induction H as [|[k seg] tbl Hseg _ IH]; intros ss Hss.
  - simpl in Hss. simplify_eq. constructor.
  - cbn [segments] in Hss.
    destruct (seg (params !!! k)) as [s|] eqn:Hs; [|done].
    destruct (segments tbl params) as [ss'|]; [|done].
    rewrite !bind_ok in Hss. simplify_eq.
    constructor; [by eapply Hseg | by apply IH].
Qed.

Lemma split_app_spaced h s th ts :
  Shlex.split h = Ok th → Shlex.split s = Ok ts → spaced s →
  Shlex.split (h +:+ s) = Ok (th ++ ts).
Proof.
  intros Hh Hs [->|[s' ->]].
  - assert (ts = []) as -> by (vm_compute in Hs; by simplify_eq).
    by rewrite append_empty_r, (right_id_L [] app).
  - rewrite split_space_l in Hs.
    by rewrite (split_app_space h th _ Hh), Hs.
Qed.

Lemma split_flatten ss tss :
  Forall2 (λ s ts, Shlex.split s = Ok ts) ss tss →
  Forall spaced ss →
  ∀ h th, Shlex.split h = Ok th →
          Shlex.split (h +:+ flatten ss) = Ok (th ++ List.concat tss).
Proof.
  induction 1 as [|s ts ss tss Hs _ IH]; intros Hsp h th Hh.
  - simpl. by rewrite append_empty_r, (right_id_L [] app).
  - apply Forall_cons in Hsp as [Hsp1 Hsp2].
    change (flatten (s :: ss)) with (s +:+ flatten ss).
    rewrite <- append_assoc.
    rewrite (IH Hsp2 (h +:+ s) (th ++ ts)
               (split_app_spaced h s th ts Hh Hs Hsp1)).
    simpl. by rewrite (assoc_L app).
Qed.

(** X4. The command line is the text up to the operation clause followed
    by the texts of the statements in their written order, and it is cut
    into arguments statement by statement: when the head and the text of
    each statement tokenize, the argument vector is the head's tokens
    followed by each statement's tokens, in that order. *)
Theorem argv_in_statement_order :
  ∀ (params : gmap string value) cli,
    (Trunk.build params = Ok cli →
     ∃ h ss,
       Trunk.head params = Ok h ∧
       segments Trunk.fields params = Ok ss ∧
       cli = h +:+ flatten ss ∧
       ∀ th tss,
         Shlex.split h = Ok th →
         Forall2 (λ s ts, Shlex.split s = Ok ts) ss tss →
         Shlex.split cli = Ok (th ++ List.concat tss)) ∧
    (Vlag.build params = Ok cli →
     ∃ h ss,
       Vlag.head params = Ok h ∧
       segments Vlag.fields params = Ok ss ∧
       cli = h +:+ flatten ss ∧
       ∀ th tss,
         Shlex.split h = Ok th →
         Forall2 (λ s ts, Shlex.split s = Ok ts) ss tss →
         Shlex.split cli = Ok (th ++ List.concat tss)).
Proof.
  intros params cli. split; intros Hcli.
  - rewrite trunk_layout in Hcli.
    destruct (Trunk.head params) as [h|]; [|done].
    destruct (segments Trunk.fields params) as [ss|] eqn:Hss; [|done].
    rewrite !bind_ok in Hcli. simplify_eq.
    exists h, ss. split_and!; [done | done | done |].
    intros th tss Hh Htss. apply split_flatten; [done | | done].
    eapply segments_all_spaced; [apply trunk_fields_spaced | done].
  - rewrite vlag_layout in Hcli.
    destruct (Vlag.head params) as [h|]; [|done].
    destruct (segments Vlag.fields params) as [ss|] eqn:Hss; [|done].
    rewrite !bind_ok in Hcli. simplify_eq.
    exists h, ss. split_and!; [done | done | done |].
    intros th tss Hh Htss. apply split_flatten; [done | | done].
    eapply segments_all_spaced; [apply vlag_fields_spaced | done].
Qed.

Lemma argv_in_statement_order_witness :
  Vlag.build (vlag_params example_create_vlag)
    = Ok ("/usr/bin/cli --quiet --user admin:admin  vlag-create name " +:+
          "spine-to-leaf port spine01-to-leaf peer-port spine02-to-leaf" +:+
          " mode active-active peer-switchspine02") ∧
  ∃ h ss,
    Vlag.head (vlag_params example_create_vlag) = Ok h ∧
    segments Vlag.fields (vlag_params example_create_vlag) = Ok ss ∧
    "/usr/bin/cli --quiet --user admin:admin  vlag-create name " +:+
    "spine-to-leaf port spine01-to-leaf peer-port spine02-to-leaf" +:+
    " mode active-active peer-switchspine02" = h +:+ flatten ss.
Proof.
  assert (Vlag.build (vlag_params example_create_vlag)
          = Ok ("/usr/bin/cli --quiet --user admin:admin  vlag-create name "
                +:+ "spine-to-leaf port spine01-to-leaf peer-port " +:+
                "spine02-to-leaf mode active-active peer-switchspine02"))
    as Hb by (vm_compute; reflexivity).
  split; [exact Hb|].
  destruct (proj2 (argv_in_statement_order _ _) Hb)
    as (h & ss & H1 & H2 & H3 & _).
  exists h, ss. split; [exact H1|]. split; [exact H2|]. exact H3.
Defined.

(* ===================================================================== *)
(** ** What the report holds *)
(* ===================================================================== *)

Lemma rstrip_suffix chars s :
  ∃ t, s = rstrip chars s +:+ t ∧ all_in chars t = true.
Proof.
  induction s as [|c s (t & Hs & Ht)]; [by exists ""|].
  simpl. destruct (rstrip chars s) as [|d u] eqn:Hr.
  - rewrite append_empty_l in Hs. subst t.
    destruct (char_in c chars) eqn:Hc.
    + exists (String c s). split; [done|]. simpl. by rewrite Hc.
    + exists s. done.
  - exists t. split; [|done]. rewrite append_cons. by f_equal.
Qed.

Lemma rstrip_not_ends_in chars s : ends_in chars (rstrip chars s) = false.
Proof.
  induction s as [|c s IH]; [done|].
  simpl. destruct (rstrip chars s) as [|d u] eqn:Hr.
  - destruct (char_in c chars) eqn:Hc; [done|]. simpl. by rewrite Hc.
  - done.
Qed.

(** X5. The text a report carries is the captured text without its
    trailing carriage returns and line feeds: what is cut off consists of
    those two characters only, what is kept does not end in one of them,
    and line breaks inside the text stay.  A failure report carries the
    standard error and not the standard output; a success report the
    standard output and not the standard error. *)
Theorem report_text_is_trimmed_capture :
  ∀ cli out err : string,
    (err ≠ "" →
     ∃ e t,
       err = e +:+ t ∧ all_in CRLF t = true ∧ ends_in CRLF e = false ∧
       Trunk.respond cli out err !! "stderr" = Some (VStr e) ∧
       Trunk.respond cli out err !! "stdout" = None ∧
       Vlag.respond cli out err !! "stderr" = Some (VStr e) ∧
       Vlag.respond cli out err !! "stdout" = None) ∧
    (err = "" →
     ∃ o t,
       out = o +:+ t ∧ all_in CRLF t = true ∧ ends_in CRLF o = false ∧
       Trunk.respond cli out err !! "stdout" = Some (VStr o) ∧
       Trunk.respond cli out err !! "stderr" = None ∧
       Vlag.respond cli out err !! "stdout" = Some (VStr o) ∧
       Vlag.respond cli out err !! "stderr" = None).
Proof.
  intros cli out err. split; intros Herr.
  - destruct (rstrip_suffix CRLF err) as (t & Hs & Ht).
    exists (rstrip CRLF err), t.
    unfold Trunk.respond, Vlag.respond. rewrite truthy_str by done.
    split_and!; [done | done | apply rstrip_not_ends_in | | | |];
      by simplify_map_eq.
  - subst err. destruct (rstrip_suffix CRLF out) as (t & Hs & Ht).
    exists (rstrip CRLF out), t.
    unfold Trunk.respond, Vlag.respond.
    split_and!; [done | done | apply rstrip_not_ends_in | | | |];
      by simplify_map_eq.
Qed.

Lemma report_text_is_trimmed_capture_witness :
  "bad port" +:+ CRLF ≠ "" ∧
  Trunk.respond "cli" "" ("bad port" +:+ CRLF) !! "stderr"
    = Some (VStr "bad port") ∧
  Vlag.respond "cli" ("a" +:+ LF +:+ "b" +:+ LF) "" !! "stdout"
    = Some (VStr ("a" +:+ LF +:+ "b")).
Proof.
  assert ("bad port" +:+ CRLF ≠ "") as H by discriminate.
  split; [exact H|]. split.
  - destruct (proj1 (report_text_is_trimmed_capture "cli" ""
                       ("bad port" +:+ CRLF)) H)
      as (e & t & _ & _ & _ & H4 & _).
    rewrite H4. vm_compute in H4. by simplify_eq.
  - destruct (proj2 (report_text_is_trimmed_capture "cli"
                       ("a" +:+ LF +:+ "b" +:+ LF) "") eq_refl)
      as (o & t & _ & _ & _ & _ & _ & H6 & _).
    rewrite H6. vm_compute in H6. by simplify_eq.
Defined.

(** X6. Whenever a run ends with a report, the report's command is the
    command line built from the task's parameters, exactly one process was
    started, and its argument vector is that command line cut by
    [shlex.split]. *)
Theorem reported_command_is_the_one_run :
  ∀ (world : Type) (Popen : list string → world → result completed * world)
    (args : gmap string value) (w : world) kwargs,
    (ending (Trunk.main Popen args w) = ExitJson kwargs →
     ∃ cli argv,
       Trunk.build (trunk_params args) = Ok cli ∧
       kwargs !! "command" = Some (VStr cli) ∧
       Shlex.split cli = Ok argv ∧
       popen_calls (Trunk.main Popen args w) = [argv]) ∧
    (ending (Vlag.main Popen args w) = ExitJson kwargs →
     ∃ cli argv,
       Vlag.build (vlag_params args) = Ok cli ∧
       kwargs !! "command" = Some (VStr cli) ∧
       Shlex.split cli = Ok argv ∧
       popen_calls (Vlag.main Popen args w) = [argv]).
Proof.
  intros world Popen args w kwargs. split.
  - unfold Trunk.main, trunk_params.
    destruct (AnsibleModule _ _ _) as [params|]; [|done]. simpl params_of.
    destruct (Trunk.build params) as [cli|]; [|done].
    destruct (Shlex.split cli) as [argv|] eqn:Hargv; [|done].
    destruct (Popen argv w) as [[c|e] w']; [|done].
    cbn [ending popen_calls]. intros [= <-].
    exists cli, argv. split_and!; try done. apply trunk_respond_command.
  - unfold Vlag.main, vlag_params.
    destruct (AnsibleModule _ _ _) as [params|]; [|done]. simpl params_of.
    destruct (Vlag.build params) as [cli|]; [|done].
    destruct (Shlex.split cli) as [argv|] eqn:Hargv; [|done].
    destruct (Popen argv w) as [[c|e] w']; [|done].
    cbn [ending popen_calls]. intros [= <-].
    exists cli, argv. split_and!; try done. apply vlag_respond_command.
Qed.

Lemma reported_command_is_the_one_run_witness :
  ending (Trunk.main prints_ok example_create_trunk tt)
    = ExitJson (Trunk.respond
                  ("/usr/bin/cli --quiet  --user admin:admin  trunk-create" +:+
                   " name spine-to-leaf  ports 11,12,13,14") "ok" "") ∧
  ∃ cli argv,
    Shlex.split cli = Ok argv ∧
    popen_calls (Trunk.main prints_ok example_create_trunk tt) = [argv].
Proof.
  assert (ending (Trunk.main prints_ok example_create_trunk tt)
          = ExitJson (Trunk.respond
                        ("/usr/bin/cli --quiet  --user admin:admin  " +:+
                         "trunk-create name spine-to-leaf  ports 11,12,13,14")
                        "ok" "")) as H by (vm_compute; reflexivity).
  split; [exact H|].
  destruct (proj1 (reported_command_is_the_one_run unit _ _ tt _) H)
    as (cli & argv & _ & _ & H3 & H4).
  exists cli, argv. split; [exact H3 | exact H4].
Defined.

(* ===================================================================== *)
(** ** A value with an unmatched quote *)
(* ===================================================================== *)

Lemma lex_open_single_quote t : ∀ esc tok q,
  char_in "'" t = false →
  Shlex.lex (Shlex.InQuote "'") esc tok q t
    = Raise (ValueError "No closing quotation").
Proof.
  induction t as [|c t IH]; intros esc tok q H; [done|].
  change ((if Ascii.eqb "'" c then true else char_in "'" t) = false) in H.
  destruct (Ascii.eqb "'" c) eqn:Hc; [done|].
  cbn [Shlex.lex]. rewrite Ascii.eqb_sym, Hc.
  replace (char_in c Shlex.escape && char_in "'" Shlex.escapedquotes)
    with false by (by rewrite andb_comm).
  by apply IH.
Qed.

Lemma lex_word_then w : ∀ esc tok q r,
  Shlex.plain w = true →
  Shlex.lex Shlex.InWord esc tok q (w +:+ r)
    = Shlex.lex Shlex.InWord esc (tok +:+ w) q r.
Proof.
  induction w as [|c w IH]; intros esc tok q r H.
  - by rewrite append_empty_l, append_empty_r.
  - change (Shlex.plain_char c && Shlex.plain w = true) in H.
    apply andb_true_iff in H as [Hc Hw].
    apply plain_char_spec in Hc as (H1 & H2 & H3).
    rewrite append_cons. simpl in H1, H2, H3 |- *. rewrite H1, H2, H3.
    rewrite IH by done. unfold Shlex.push.
    by rewrite append_assoc, append_cons, append_empty_l.
Qed.

Lemma split_unmatched_quote w t :
  Shlex.plain w = true → char_in "'" t = false →
  Shlex.split (w +:+ "'" +:+ t) = Raise (ValueError "No closing quotation").
Proof.
  intros Hw Ht. unfold Shlex.split. destruct w as [|c w].
  - rewrite append_empty_l. change ("'" +:+ t) with (String "'" t).
    cbn [Shlex.lex]. by apply lex_open_single_quote.
  - change (Shlex.plain_char c && Shlex.plain w = true) in Hw.
    apply andb_true_iff in Hw as [Hc Hw].
    apply plain_char_spec in Hc as (H1 & H2 & H3).
    rewrite append_cons. simpl in H1, H2, H3 |- *. rewrite H1, H2, H3.
    rewrite lex_word_then by done.
    change ("'" +:+ t) with (String "'" t).
    cbn [Shlex.lex]. by apply lex_open_single_quote.
Qed.

Lemma trunk_main_split_raises {world : Type}
    (Popen : list string → world → result completed * world)
    args (w : world) params cli e :
  AnsibleModule Trunk.argument_spec Trunk.required_if args = Params params →
  Trunk.build params = Ok cli →
  Shlex.split cli = Raise e →
  Trunk.main Popen args w
    = {| popen_calls := []; ending := Traceback e; after := w |}.
Proof. unfold Trunk.main. by intros -> -> ->. Qed.

(** X7. No quoting is added to the values.  A trunk-create task whose
    ports value has a single quote that is never closed passes the
    constructor's checks, but [shlex.split] then raises [ValueError]: the
    run ends in that exception and no process is started. *)
Theorem unmatched_quote_in_ports_raises :
  ∀ (world : Type) (Popen : list string → world → result completed * world)
    (w : world) (u pw n p t : string) (up : list string),
    Shlex.split (u +:+ ":" +:+ pw) = Ok up →
    Shlex.word n = true →
    Shlex.plain p = true →
    char_in "'" t = false →
    Trunk.main Popen (create_trunk_request u pw n (p +:+ "'" +:+ t)) w
      = {| popen_calls := [];
           ending := Traceback (ValueError "No closing quotation");
           after := w |}.
Proof.
  intros world Popen w u pw n p t up Hup Hn Hp Ht.
  assert (p +:+ "'" +:+ t ≠ "") as Hne by (by destruct p).
  apply (trunk_main_split_raises Popen _ w _ _ _
           (create_trunk_checked u pw n _)
           (create_trunk_build u pw n _ Hne)).
  trans (Shlex.split
           (String.concat " "
              ["/usr/bin/cli"; "--quiet"; ""; "--user"; u +:+ ":" +:+ pw; "";
               "trunk-create"; "name"; n; ""; "ports"]
            +:+ " " +:+ (p +:+ "'" +:+ t))).
  { f_equal. simpl. by rewrite !append_assoc. }
  rewrite (split_app_space _
             (List.concat [["/usr/bin/cli"]; ["--quiet"]; []; ["--user"]; up;
                           []; ["trunk-create"]; ["name"]; [n]; [];
                           ["ports"]])).
  - by rewrite split_unmatched_quote.
  - apply split_unwords.
    repeat (apply Forall2_cons; split;
            [first [ exact Hup | exact (split_word _ Hn)
                   | vm_compute; reflexivity ]|]).
    apply Forall2_nil_2.
Qed.

Lemma unmatched_quote_in_ports_raises_witness :
  Shlex.split ("admin" +:+ ":" +:+ "admin") = Ok ["admin:admin"] ∧
  Shlex.word "uplink" = true ∧ Shlex.plain "11," = true ∧
  char_in "'" "12" = false ∧
  ∀ Popen : list string → unit → result completed * unit,
    Trunk.main Popen (create_trunk_request "admin" "admin" "uplink" "11,'12") tt
      = {| popen_calls := [];
           ending := Traceback (ValueError "No closing quotation");
           after := tt |}.
Proof.
  split; [reflexivity|]. split; [reflexivity|]. split; [reflexivity|].
  split; [reflexivity|]. intros Popen.
  exact (unmatched_quote_in_ports_raises unit Popen tt "admin" "admin" "uplink"
           "11," "12" ["admin:admin"] eq_refl eq_refl eq_refl eq_refl).
Defined.

(* ===================================================================== *)
(** ** What the constructor's checks guarantee *)
(* ===================================================================== *)

Lemma filter_fst_nil {A B} (f : A * B → bool) (l : list (A * B)) x :
  (List.filter f l).*1 = [] → x ∈ l → f x = false.
Proof.
  intros Hnil Hx. destruct (f x) eqn:Hf; [|done].
  assert (In x (List.filter f l)) as Hin
    by (apply filter_In; split; [by apply list_elem_of_In | done]).
  destruct (List.filter f l); [done | discriminate].
Qed.

Section Validated.
Variable spec : list (string * argspec).
Variable rules : list rule.
Hypothesis spec_nodup : NoDup spec.*1.

Lemma set_defaults_notin pre sp (m : gmap string value) k :
  k ∉ sp.*1 → set_defaults pre sp m !! k = m !! k.
Proof.
  unfold set_defaults. revert m.
  induction sp as [|[k' a] sp IH]; intros m Hk; [done|].
  apply not_elem_of_cons in Hk as [Hne Hk]. simpl.
  rewrite IH by done.
  destruct (m !! k'); [done|].
  destruct (pre && bool_decide (default a = VNone)); [done|].
  by rewrite lookup_insert_ne.
Qed.

Lemma set_defaults_lookup_in pre sp (m : gmap string value) k a :
  NoDup sp.*1 → (k, a) ∈ sp →
  set_defaults pre sp m !! k =
  match m !! k with
  | Some v => Some v
  | None => if pre && bool_decide (default a = VNone) then None
            else Some (default a)
  end.
Proof.
  revert m. induction sp as [|[k' a'] sp IH]; intros m Hnd Hin.
  { by apply elem_of_nil in Hin. }
  rewrite fmap_cons in Hnd. apply NoDup_cons in Hnd as [Hk' Hnd].
  apply elem_of_cons in Hin as [[= -> ->]|Hin].
  - change (set_defaults pre ((k', a') :: sp) m)
      with (set_defaults pre sp
              (match m !! k' with
               | Some _ => m
               | None => if pre && bool_decide (default a' = VNone) then m
                         else <[k' := default a']> m
               end)).
    rewrite set_defaults_notin by done.
    destruct (m !! k') eqn:Hm; [done|].
    destruct (pre && bool_decide (default a' = VNone)); [done|].
    by rewrite lookup_insert_eq.
  - assert (k ≠ k') as Hne.
    { intros ->. apply Hk'. apply list_elem_of_fmap. by exists (k', a). }
    change (set_defaults pre ((k', a') :: sp) m)
      with (set_defaults pre sp
              (match m !! k' with
               | Some _ => m
               | None => if pre && bool_decide (default a' = VNone) then m
                         else <[k' := default a']> m
               end)).
    rewrite IH by done.
    destruct (m !! k'); [done|].
    destruct (pre && bool_decide (default a' = VNone)); [done|].
    by rewrite lookup_insert_ne.
Qed.

(** The values of the parameters after alias handling are values of the
    task. *)
Lemma handle_aliases_values (P : value → Prop) sp (args : gmap string value) :
  (∀ k v, args !! k = Some v → P v) →
  ∀ k v, handle_aliases sp args !! k = Some v → P v.
Proof.
  unfold handle_aliases. revert args.
  induction sp as [|[k' a] sp IH]; intros args Hargs; [done|].
  simpl. apply IH. clear IH.
  generalize (aliases a). intros als. revert args Hargs.
  induction als as [|al als IH]; intros args Hargs; [done|].
  simpl. apply IH. destruct (args !! al) as [x|] eqn:Hal; [|done].
  intros k v. destruct (decide (k' = k)) as [->|Hne].
  - rewrite lookup_insert_eq. intros [= <-]. by eapply Hargs.
  - rewrite lookup_insert_ne by done. apply Hargs.
Qed.

Lemma lenient_cases cs v :
  lenient cs v = v ∨
  ∃ c, (v = VStr "False" ∨ v = VStr "True") ∧ lenient cs v = VStr c.
Proof.
  unfold lenient. cbv zeta.
  destruct (bool_decide (v ∈ VStr <$> cs)); [by left|].
  destruct (decide (v = VStr "False")) as [->|Hf].
  - rewrite (bool_decide_eq_true_2 (VStr "False" = VStr "False") eq_refl).
    destruct (overlap BOOLEANS_FALSE cs) as [|c [|c' l]].
    + rewrite (bool_decide_eq_false_2 (VStr "False" = VStr "True"));
        [by left | done].
    + destruct (bool_decide (VStr c = VStr "True")).
      * destruct (overlap BOOLEANS_TRUE cs) as [|d [|d' l]]; right; eauto.
      * right; eauto.
    + rewrite (bool_decide_eq_false_2 (VStr "False" = VStr "True"));
        [by left | done].
  - rewrite (bool_decide_eq_false_2 (v = VStr "False") Hf).
    destruct (decide (v = VStr "True")) as [->|Ht].
    + rewrite (bool_decide_eq_true_2 (VStr "True" = VStr "True") eq_refl).
      destruct (overlap BOOLEANS_TRUE cs) as [|d [|d' l]];
        [by left | right; eauto | by left].
    + rewrite (bool_decide_eq_false_2 (v = VStr "True") Ht). by left.
Qed.

Lemma lenient_typed cs t v :
  has_type t v = true → has_type t (lenient cs v) = true.
Proof.
  intros H. destruct (lenient_cases cs v) as [->|(c & Hv & ->)]; [done|].
  by destruct Hv as [->| ->], t.
Qed.

Lemma lenient_not_None cs v : v ≠ VNone → lenient cs v ≠ VNone.
Proof.
  intros H. by destruct (lenient_cases cs v) as [->|(c & _ & ->)].
Qed.

Lemma lenient_choices_notin sp (m : gmap string value) k :
  k ∉ sp.*1 → lenient_choices sp m !! k = m !! k.
Proof.
  unfold lenient_choices. revert m.
  induction sp as [|[k' a] sp IH]; intros m Hk; [done|].
  apply not_elem_of_cons in Hk as [Hne Hk]. simpl.
  rewrite IH by done.
  destruct (choices a); [|done]. destruct (m !! k'); [|done].
  by rewrite lookup_insert_ne.
Qed.

(** With one entry per parameter, the value stored back for a parameter
    depends on its own choices and value only. *)
Lemma lenient_choices_lookup_in sp (m : gmap string value) k a :
  NoDup sp.*1 → (k, a) ∈ sp →
  lenient_choices sp m !! k =
  match choices a with
  | Some cs => lenient cs <$> m !! k
  | None => m !! k
  end.
Proof.
  revert m. induction sp as [|[k' a'] sp IH]; intros m Hnd Hin.
  { by apply elem_of_nil in Hin. }
  rewrite fmap_cons in Hnd. apply NoDup_cons in Hnd as [Hk' Hnd].
  change (lenient_choices ((k', a') :: sp) m)
    with (lenient_choices sp
            (match choices a', m !! k' with
             | Some cs, Some v => <[k' := lenient cs v]> m
             | _, _ => m
             end)).
  apply elem_of_cons in Hin as [[= -> ->]|Hin].
  - rewrite lenient_choices_notin by done.
    destruct (choices a') as [cs|]; [|done].
    destruct (m !! k') eqn:Hm; [|by rewrite Hm].
    by rewrite lookup_insert_eq.
  - assert (k ≠ k') as Hne.
    { intros ->. apply Hk'. apply list_elem_of_fmap. by exists (k', a). }
    rewrite IH by done.
    destruct (choices a') as [cs'|]; [|done].
    destruct (m !! k'); [|done].
    by rewrite lookup_insert_ne.
Qed.

Lemma lenient_choices_lookup_inv (m : gmap string value) k a v :
  (k, a) ∈ spec → lenient_choices spec m !! k = Some v →
  ∃ v0, m !! k = Some v0 ∧
        (v = v0 ∨ ∃ cs, choices a = Some cs ∧ v = lenient cs v0).
Proof.
  intros Hin. rewrite (lenient_choices_lookup_in spec m k a spec_nodup Hin).
  destruct (choices a) as [cs|].
  - destruct (m !! k) as [v0|]; [|done]. intros [= <-].
    exists v0. split; [done|]. right. by exists cs.
  - intros ->. exists v. split; [done | by left].
Qed.

Lemma checked_inv args params :
  AnsibleModule spec rules args = Params params →
  missing_required spec (set_defaults true spec (handle_aliases spec args)) = [] ∧
  ill_typed spec (set_defaults true spec (handle_aliases spec args)) = [] ∧
  bad_choice spec
    (lenient_choices spec
       (set_defaults true spec (handle_aliases spec args))) = [] ∧
  params = set_defaults false spec
             (lenient_choices spec
                (set_defaults true spec (handle_aliases spec args))).
Proof.
  unfold AnsibleModule.
  destruct (unsupported _ _); [|done].
  destruct (missing_required _ _); [|done].
  destruct (ill_typed _ _); [|done].
  destruct (bad_choice _ _); [|done].
  destruct (missing_if _ _) as [|[[? ?] ?] ?]; [|done].
  by intros [= <-].
Qed.

(** After the checks every declared parameter is in [module.params], so
    no lookup in [main] fails. *)
Lemma checked_present args params k a :
  AnsibleModule spec rules args = Params params →
  (k, a) ∈ spec →
  ∃ v, params !! k = Some v ∧
       (lenient_choices spec
          (set_defaults true spec (handle_aliases spec args)) !! k = Some v ∨
        lenient_choices spec
          (set_defaults true spec (handle_aliases spec args)) !! k = None ∧
        v = default a).
Proof.
  intros Hp Hin. apply checked_inv in Hp as (_ & _ & _ & ->).
  rewrite (set_defaults_lookup_in false spec _ k a spec_nodup Hin).
  destruct (lenient_choices spec
              (set_defaults true spec (handle_aliases spec args)) !! k)
    as [v|]; eauto.
Qed.

Lemma checked_typed args params k a v :
  AnsibleModule spec rules args = Params params →
  (k, a) ∈ spec →
  has_type (type a) (default a) = true →
  params !! k = Some v →
  has_type (type a) v = true.
Proof.
  intros Hp Hin Hd Hv.
  destruct (checked_present _ _ _ _ Hp Hin) as (v' & Hv' & [H1|[_ ->]]);
    simplify_eq; [|done].
  apply checked_inv in Hp as (_ & Ht & _ & _).
  pose proof (filter_fst_nil _ _ (k, a) Ht Hin) as Hf.
  apply (lenient_choices_lookup_inv _ _ _ _ Hin) in H1
    as (v0 & H0 & Hfrom).
  simpl in Hf. rewrite H0 in Hf. apply negb_false_iff in Hf.
  destruct Hfrom as [->|(cs & _ & ->)]; [done | by apply lenient_typed].
Qed.

Lemma checked_choice args params k a cs v :
  AnsibleModule spec rules args = Params params →
  (k, a) ∈ spec →
  choices a = Some cs →
  params !! k = Some v →
  v = default a ∨ v ∈ VStr <$> cs.
Proof.
  intros Hp Hin Hcs Hv.
  destruct (checked_present _ _ _ _ Hp Hin) as (v' & Hv' & [H1|[_ ->]]);
    simplify_eq; [|by left].
  apply checked_inv in Hp as (_ & _ & Hc & _).
  pose proof (filter_fst_nil _ _ (k, a) Hc Hin) as Hf.
  simpl in Hf. rewrite Hcs, H1 in Hf.
  apply negb_false_iff, bool_decide_eq_true in Hf. by right.
Qed.

Lemma checked_required args params k a :
  AnsibleModule spec rules args = Params params →
  (k, a) ∈ spec →
  required a = true →
  (∀ k v, args !! k = Some v → v ≠ VNone) →
  ∃ v, params !! k = Some v ∧ v ≠ VNone.
Proof.
  intros Hp Hin Hreq Hargs.
  destruct (checked_present _ _ _ _ Hp Hin) as (v & Hv & Hfrom).
  exists v. split; [done|].
  apply checked_inv in Hp as (Hm & _ & _ & _).
  pose proof (filter_fst_nil _ _ (k, a) Hm Hin) as Hf.
  simpl in Hf. rewrite Hreq in Hf. simpl in Hf.
  apply bool_decide_eq_false in Hf.
  destruct Hfrom as [H1|[H1 _]].
  - apply (lenient_choices_lookup_inv _ _ _ _ Hin) in H1
      as (v0 & H0 & Hfrom).
    assert (v0 ≠ VNone) as Hne.
    { rewrite (set_defaults_lookup_in true spec _ k a spec_nodup Hin) in H0.
      destruct (handle_aliases spec args !! k) as [v1|] eqn:H1.
      - simplify_eq. by eapply (handle_aliases_values (λ v, v ≠ VNone)).
      - simpl in H0. case_bool_decide; simplify_eq. done. }
    destruct Hfrom as [->|(cs & _ & ->)]; [done | by apply lenient_not_None].
  - rewrite (lenient_choices_lookup_in spec _ k a spec_nodup Hin) in H1.
    destruct (choices a); [|done].
    by destruct (set_defaults true spec (handle_aliases spec args) !! k).
Qed.

(** A parameter with declared choices and a string outside them stops the
    constructor, unless the string is [True] or [False]. *)
Lemma rejected_bad_choice args k a cs s :
  (k, a) ∈ spec → choices a = Some cs →
  given spec args k = Some (VStr s) →
  s ∉ cs → s ≠ "True" → s ≠ "False" →
  ∃ msg, AnsibleModule spec rules args = FailJson msg.
Proof.
  intros Hin Hcs Hv Hout Ht Hf. unfold AnsibleModule.
  destruct (unsupported _ _); [|by eexists].
  destruct (missing_required _ _); [|by eexists].
  destruct (ill_typed _ _); [|by eexists].
  destruct (bad_choice _ _) eqn:E; [|by eexists].
  exfalso.
  pose proof (filter_fst_nil _ _ (k, a) E Hin) as Hb.
  simpl in Hb.
  rewrite Hcs, (lenient_choices_lookup_other spec _ k (VStr s)) in Hb;
    [|congruence|congruence|by apply set_defaults_lookup_Some].
  apply negb_false_iff, bool_decide_eq_true in Hb.
  apply list_elem_of_fmap in Hb as (c & [= ->] & Hc). done.
Qed.

End Validated.

Lemma trunk_spec_nodup : NoDup Trunk.argument_spec.*1.
Proof. apply (bool_decide_unpack _). by vm_compute. Qed.

Lemma vlag_spec_nodup : NoDup Vlag.argument_spec.*1.
Proof. apply (bool_decide_unpack _). by vm_compute. Qed.

Lemma trunk_defaults_typed k a :
  (k, a) ∈ Trunk.argument_spec →
  has_type (type a) (default a) = true ∧
  (∀ cs, choices a = Some cs → default a = VNone).
Proof.
  intros H. unfold Trunk.argument_spec in H. by each_member H.
Qed.

Lemma vlag_defaults_typed k a :
  (k, a) ∈ Vlag.argument_spec →
  has_type (type a) (default a) = true ∧
  (∀ cs, choices a = Some cs → default a = VNone).
Proof.
  intros H. unfold Vlag.argument_spec in H. by each_member H.
Qed.

Lemma trunk_checked_lookup (args params : gmap string value) k a :
  AnsibleModule Trunk.argument_spec Trunk.required_if args = Params params →
  (k, a) ∈ Trunk.argument_spec →
  ∃ v, params !! k = Some v ∧ has_type (type a) v = true ∧
       ∀ cs, choices a = Some cs → v = VNone ∨ v ∈ VStr <$> cs.
Proof.
  intros Hp Hin.
  destruct (trunk_defaults_typed k a Hin) as [Hd Hc].
  destruct (checked_present _ _ trunk_spec_nodup _ _ _ _ Hp Hin)
    as (v & Hv & _).
  exists v. split_and!; [done | |].
  - by eapply (checked_typed _ _ trunk_spec_nodup).
  - intros cs Hcs.
    destruct (checked_choice _ _ trunk_spec_nodup _ _ _ _ _ _ Hp Hin Hcs Hv)
      as [->|H]; [left; by eapply Hc | by right].
Qed.

Lemma vlag_checked_lookup (args params : gmap string value) k a :
  AnsibleModule Vlag.argument_spec Vlag.required_if args = Params params →
  (k, a) ∈ Vlag.argument_spec →
  ∃ v, params !! k = Some v ∧ has_type (type a) v = true ∧
       ∀ cs, choices a = Some cs → v = VNone ∨ v ∈ VStr <$> cs.
Proof.
  intros Hp Hin.
  destruct (vlag_defaults_typed k a Hin) as [Hd Hc].
  destruct (checked_present _ _ vlag_spec_nodup _ _ _ _ Hp Hin)
    as (v & Hv & _).
  exists v. split_and!; [done | |].
  - by eapply (checked_typed _ _ vlag_spec_nodup).
  - intros cs Hcs.
    destruct (checked_choice _ _ vlag_spec_nodup _ _ _ _ _ _ Hp Hin Hcs Hv)
      as [->|H]; [left; by eapply Hc | by right].
Qed.

(** X8. After the constructor's checks every declared parameter is a key
    of [module.params], so none of the lookups at the start of [main] can
    fail; its value is [None] or of the declared type, and for a parameter
    with choices it is [None] or one of the choices. *)
Theorem checked_params_complete_and_typed :
  ∀ (args params : gmap string value) k a,
    (AnsibleModule Trunk.argument_spec Trunk.required_if args = Params params →
     (k, a) ∈ Trunk.argument_spec →
     ∃ v, params !! k = Some v ∧ has_type (type a) v = true ∧
          ∀ cs, choices a = Some cs → v = VNone ∨ v ∈ VStr <$> cs) ∧
    (AnsibleModule Vlag.argument_spec Vlag.required_if args = Params params →
     (k, a) ∈ Vlag.argument_spec →
     ∃ v, params !! k = Some v ∧ has_type (type a) v = true ∧
          ∀ cs, choices a = Some cs → v = VNone ∨ v ∈ VStr <$> cs).
Proof.
  intros args params k a. split.
  - apply trunk_checked_lookup.
  - apply vlag_checked_lookup.
Qed.

Lemma checked_params_complete_and_typed_witness :
  AnsibleModule Trunk.argument_spec Trunk.required_if example_create_trunk
    = Params (trunk_params example_create_trunk) ∧
  ("pn_speed", among ["disable"; "10m"; "100m"; "1g"; "2.5g"; "10g"; "40g"]
                 (opt TStr)) ∈ Trunk.argument_spec ∧
  ∃ v, trunk_params example_create_trunk !! "pn_speed" = Some v ∧
       has_type TStr v = true.
Proof.
  assert (AnsibleModule Trunk.argument_spec Trunk.required_if
            example_create_trunk
          = Params (trunk_params example_create_trunk)) as Hp
    by (vm_compute; reflexivity).
  assert (("pn_speed",
           among ["disable"; "10m"; "100m"; "1g"; "2.5g"; "10g"; "40g"]
             (opt TStr)) ∈ Trunk.argument_spec) as Hin
    by (unfold Trunk.argument_spec; in_list).
  split; [exact Hp|]. split; [exact Hin|].
  destruct (proj1 (checked_params_complete_and_typed _ _ _ _) Hp Hin)
    as (v & H1 & H2 & _).
  exists v. split; [exact H1 | exact H2].
Defined.

Lemma checked_well_typed_trunk args params :
  AnsibleModule Trunk.argument_spec Trunk.required_if args = Params params →
  well_typed Trunk.argument_spec params.
Proof.
  intros Hp k a Hin.
  destruct (trunk_checked_lookup _ _ _ _ Hp Hin) as (v & Hv & Hty & _).
  by rewrite (lookup_total_correct _ _ _ Hv).
Qed.

Lemma checked_well_typed_vlag args params :
  AnsibleModule Vlag.argument_spec Vlag.required_if args = Params params →
  well_typed Vlag.argument_spec params.
Proof.
  intros Hp k a Hin.
  destruct (vlag_checked_lookup _ _ _ _ Hp Hin) as (v & Hv & Hty & _).
  by rewrite (lookup_total_correct _ _ _ Hv).
Qed.

Lemma typed_lookup spec (params : gmap string value) k a t :
  well_typed spec params → (k, a) ∈ spec → type a = t →
  has_type t (params !!! k) = true.
Proof. intros H Hin <-. by apply H. Qed.

Lemma well_typed_insert_None spec (params : gmap string value) k :
  well_typed spec params → well_typed spec (<[k := VNone]> params).
Proof.
  intros H k' a Hin. destruct (decide (k = k')) as [->|Hne].
  - rewrite lookup_total_insert_eq. by destruct (type a).
  - rewrite lookup_total_insert_ne by done. by apply H.
Qed.

Lemma text_field_total flag v :
  has_type TStr v = true → ∃ s, text_field flag v = Ok s.
Proof.
  unfold text_field. destruct v as [| | |s]; try done; [by eexists|].
  destruct (truthy (VStr s)); by eexists.
Qed.

Lemma failover_field_total v :
  has_type TStr v = true → ∃ s, Vlag.failover_field v = Ok s.
Proof.
  unfold Vlag.failover_field. destruct v as [| | |s]; try done; [by eexists|].
  destruct (truthy (VStr s)); by eexists.
Qed.

Lemma bool_field_total yes no v : ∃ s, bool_field yes no v = Ok s.
Proof.
  unfold bool_field. destruct (is_True v), (is_False v); by eexists.
Qed.

Lemma segments_total tbl (params : gmap string value) :
  Forall (λ ks : string * (value → result string),
            ∃ s, ks.2 (params !!! ks.1) = Ok s) tbl →
  ∃ ss, segments tbl params = Ok ss.
Proof.
  induction 1 as [|[k seg] tbl [s Hs] _ [ss IH]]; [by eexists|].
  cbn [segments]. simpl in Hs. rewrite Hs, IH. by eexists.
Qed.

Ltac typed_field Hty spec :=
  first
    [ apply bool_field_total
    | apply text_field_total;
      eapply (typed_lookup _ _ _ _ _ Hty); [unfold spec; in_list | done]
    | apply failover_field_total;
      eapply (typed_lookup _ _ _ _ _ Hty); [unfold spec; in_list | done] ].

Lemma trunk_build_ok (params : gmap string value) :
  well_typed Trunk.argument_spec params →
  truthy (params !!! "pn_lacp_priority") = false →
  ∃ cli, Trunk.build params = Ok cli.
Proof.
  intros Hty Hlacp. rewrite trunk_build_table.
  assert (∃ sw, Trunk.switch_clause (params !!! "pn_cliswitch") = Ok sw)
    as [sw ->].
  { assert (has_type TStr (params !!! "pn_cliswitch") = true) as H
      by (eapply (typed_lookup _ _ _ _ _ Hty);
          [unfold Trunk.argument_spec; in_list | done]).
    unfold Trunk.switch_clause.
    destruct (params !!! "pn_cliswitch") as [| | |s]; try done; [by eexists|].
    destruct (truthy (VStr s)); [|by eexists].
    case_bool_decide; by eexists. }
  assert (∃ ss, segments Trunk.fields params = Ok ss) as [ss ->].
  { apply segments_total. unfold Trunk.fields.
    repeat (apply Forall_cons; split;
            [first [ typed_field Hty Trunk.argument_spec
                   | exists ""; by apply text_field_falsy ]|]).
    apply Forall_nil_2. }
  by eexists.
Qed.

(** X9. On parameters that passed the constructor's checks the trunk
    command builder fails in one case only: it returns a command line when
    [pn_lacp_priority] is absent or 0, and raises [TypeError] when it is any
    other integer. *)
Theorem trunk_build_fails_only_on_lacp_priority :
  ∀ args params : gmap string value,
    AnsibleModule Trunk.argument_spec Trunk.required_if args = Params params →
    (truthy (params !!! "pn_lacp_priority") = false ∧
     ∃ cli, Trunk.build params = Ok cli) ∨
    (∃ n, n ≠ 0%Z ∧ params !!! "pn_lacp_priority" = VInt n ∧
          Trunk.build params = Raise TypeError).
Proof.
  intros args params Hp.
  pose proof (checked_well_typed_trunk _ _ Hp) as Hty.
  destruct (truthy (params !!! "pn_lacp_priority")) eqn:Htr.
  - right.
    assert (has_type TInt (params !!! "pn_lacp_priority") = true) as H
      by (eapply (typed_lookup _ _ _ _ _ Hty);
          [unfold Trunk.argument_spec; in_list | done]).
    destruct (params !!! "pn_lacp_priority") as [| |n|] eqn:Hv; try done.
    exists n. split_and!; [|done|].
    + intros ->. done.
    + assert (params !! "pn_lacp_priority" = Some (VInt n)) as Hl.
      { rewrite lookup_total_alt in Hv.
        by destruct (params !! "pn_lacp_priority"); simplify_eq/=. }
      rewrite <- (insert_id params _ _ Hl).
      destruct (trunk_build_ok (<["pn_lacp_priority" := VNone]> params))
        as [base Hbase].
      { by apply well_typed_insert_None. }
      { by rewrite lookup_total_insert_eq. }
      eapply trunk_field_raise; [|exact Hbase|].
      * unfold Trunk.fields; in_list.
      * unfold text_field. by rewrite Htr.
  - left. split; [done|]. by apply trunk_build_ok.
Qed.

Lemma trunk_build_fails_only_on_lacp_priority_witness :
  AnsibleModule Trunk.argument_spec Trunk.required_if modify_trunk_priority
    = Params (trunk_params modify_trunk_priority) ∧
  trunk_params modify_trunk_priority !!! "pn_lacp_priority" = VInt 100 ∧
  Trunk.build (trunk_params modify_trunk_priority) = Raise TypeError.
Proof.
  assert (AnsibleModule Trunk.argument_spec Trunk.required_if
            modify_trunk_priority
          = Params (trunk_params modify_trunk_priority)) as Hp
    by (vm_compute; reflexivity).
  assert (trunk_params modify_trunk_priority !!! "pn_lacp_priority"
          = VInt 100) as Hv by (vm_compute; reflexivity).
  split; [exact Hp|]. split; [exact Hv|].
  destruct (trunk_build_fails_only_on_lacp_priority _ _ Hp)
    as [[Hf _]|(n & _ & _ & Hr)].
  - rewrite Hv in Hf. discriminate Hf.
  - exact Hr.
Defined.

Lemma typed_required_str (params : gmap string value) k v :
  has_type TStr v = true → params !! k = Some v → v ≠ VNone →
  ∃ s, params !!! k = VStr s.
Proof.
  intros Hty Hv Hne. rewrite (lookup_total_correct _ _ _ Hv).
  destruct v; try done. by eexists.
Qed.

(** X10. The VLAG command builder never raises on parameters that passed
    the constructor's checks, provided the task gives no parameter the
    value [None]: every string it concatenates is then a string. *)
Theorem vlag_build_total_on_checked_params :
  ∀ args params : gmap string value,
    (∀ k v, args !! k = Some v → v ≠ VNone) →
    AnsibleModule Vlag.argument_spec Vlag.required_if args = Params params →
    ∃ cli, Vlag.build params = Ok cli.
Proof.
  intros args params Hargs Hp.
  pose proof (checked_well_typed_vlag _ _ Hp) as Hty.
  assert (∀ k a, (k, a) ∈ Vlag.argument_spec → required a = true →
                 type a = TStr → ∃ s, params !!! k = VStr s) as Hreq.
  { intros k a Hin Hr Ht.
    destruct (checked_required _ _ vlag_spec_nodup _ _ _ _ Hp Hin Hr Hargs)
      as (v & Hv & Hne).
    eapply typed_required_str; [|exact Hv|exact Hne].
    rewrite <- (lookup_total_correct _ _ _ Hv).
    by eapply (typed_lookup _ _ _ _ _ Hty). }
  rewrite vlag_build_table. unfold Vlag.credentials, Vlag.operation.
  destruct (Hreq "pn_cliusername" (alias ["username"] (req (opt TStr))))
    as [u ->]; [unfold Vlag.argument_spec; in_list | done | done |].
  destruct (Hreq "pn_clipassword" (alias ["password"] (req (opt TStr))))
    as [pw ->]; [unfold Vlag.argument_spec; in_list | done | done |].
  destruct (Hreq "pn_command"
              (alias ["command"]
                 (among ["vlag-create"; "vlag-delete"; "vlag-modify"]
                    (req (opt TStr)))))
    as [cmd ->]; [unfold Vlag.argument_spec; in_list | done | done |].
  destruct (Hreq "pn_name" (alias ["name"] (req (opt TStr))))
    as [n ->]; [unfold Vlag.argument_spec; in_list | done | done |].
  assert (∃ sw, Vlag.switch_clause (params !!! "pn_cliswitch") = Ok sw)
    as [sw ->].
  { apply text_field_total.
    eapply (typed_lookup _ _ _ _ _ Hty);
      [unfold Vlag.argument_spec; in_list | done]. }
  assert (∃ ss, segments Vlag.fields params = Ok ss) as [ss ->].
  { apply segments_total. unfold Vlag.fields.
    repeat (apply Forall_cons; split;
            [typed_field Hty Vlag.argument_spec|]).
    apply Forall_nil_2. }
  by eexists.
Qed.

Lemma vlag_build_total_on_checked_params_witness :
  (∀ k v, example_create_vlag !! k = Some v → v ≠ VNone) ∧
  AnsibleModule Vlag.argument_spec Vlag.required_if example_create_vlag
    = Params (vlag_params example_create_vlag) ∧
  ∃ cli, Vlag.build (vlag_params example_create_vlag) = Ok cli.
Proof.
  assert (∀ k v, example_create_vlag !! k = Some v → v ≠ VNone) as Hargs.
  { intros k v Hk ->. apply elem_of_map_to_list in Hk.
    vm_compute in Hk. each_member Hk. }
  assert (AnsibleModule Vlag.argument_spec Vlag.required_if example_create_vlag
          = Params (vlag_params example_create_vlag)) as Hp
    by (vm_compute; reflexivity).
  split; [exact Hargs|]. split; [exact Hp|].
  exact (vlag_build_total_on_checked_params _ _ Hargs Hp).
Defined.

(* ===================================================================== *)
(** ** More rejected tasks, and a complete vlag-create task *)
(* ===================================================================== *)

Lemma trunk_required_no_default k a :
  (k, a) ∈ Trunk.argument_spec → required a = true → k ≠ "pn_quiet".
Proof.
  intros H. unfold Trunk.argument_spec in H. by each_member H.
Qed.

Lemma vlag_required_no_default k a :
  (k, a) ∈ Vlag.argument_spec → required a = true → k ≠ "pn_quiet".
Proof.
  intros H. unfold Vlag.argument_spec in H. by each_member H.
Qed.

(** X11. A task that gives a parameter with declared choices a string
    outside them (an operation other than the three of the module, an
    unknown speed or LACP mode, ...) is rejected by the constructor: the
    run ends in [fail_json] and no process is started.  The strings [True]
    and [False] are set apart, since for them the constructor first looks
    for the one choice that is a word for true or for false: a trunk task
    with [pn_lacp_mode] given as [False] is accepted and run with
    [lacp-mode off]. *)
Theorem value_outside_choices_rejected :
  ∀ (world : Type) (Popen : list string → world → result completed * world)
    (w : world),
    (∀ (args : gmap string value) k a cs (s : string),
       s ∉ cs → s ≠ "True" → s ≠ "False" →
       choices a = Some cs →
       ((k, a) ∈ Trunk.argument_spec → args !! k = Some (VStr s) →
        popen_calls (Trunk.main Popen args w) = [] ∧
        after (Trunk.main Popen args w) = w ∧
        ∃ msg, ending (Trunk.main Popen args w) = Failed msg) ∧
       ((k, a) ∈ Vlag.argument_spec →
        given Vlag.argument_spec args k = Some (VStr s) →
        popen_calls (Vlag.main Popen args w) = [] ∧
        after (Vlag.main Popen args w) = w ∧
        ∃ msg, ending (Vlag.main Popen args w) = Failed msg)) ∧
    popen_calls
      (Trunk.main Popen
         (<["pn_lacp_mode" := VStr "False"]> example_create_trunk) w)
    = [ ["/usr/bin/cli"; "--quiet"; "--user"; "admin:admin"; "trunk-create";
         "name"; "spine-to-leaf"; "ports"; "11,12,13,14";
         "lacp-mode"; "off"] ].
Proof.
  intros world Popen w. split.
  - intros args k a cs s Hout Ht Hf Hcs. split; intros Hin Hv.
    + destruct (rejected_bad_choice Trunk.argument_spec Trunk.required_if
                  args k a cs s Hin Hcs Hv Hout Ht Hf) as [msg Hmsg].
      rewrite (trunk_main_rejected Popen args w msg Hmsg). eauto.
    + destruct (rejected_bad_choice Vlag.argument_spec Vlag.required_if
                  args k a cs s Hin Hcs Hv Hout Ht Hf) as [msg Hmsg].
      rewrite (vlag_main_rejected Popen args w msg Hmsg). eauto.
  - apply (trunk_main_spawns Popen _ w
             (trunk_params
                (<["pn_lacp_mode" := VStr "False"]> example_create_trunk))
             ("/usr/bin/cli --quiet  --user admin:admin  trunk-create name "
              +:+ "spine-to-leaf  ports 11,12,13,14 lacp-mode off"));
      vm_compute; reflexivity.
Qed.

Lemma value_outside_choices_rejected_witness :
  ¬ ("trunk-show" ∈ ["trunk-create"; "trunk-delete"; "trunk-modify"]) ∧
  ("pn_command",
   among ["trunk-create"; "trunk-delete"; "trunk-modify"] (req (opt TStr)))
    ∈ Trunk.argument_spec ∧
  ∀ Popen : list string → unit → result completed * unit,
    popen_calls
      (Trunk.main Popen
         (<["pn_command" := VStr "trunk-show"]> example_delete_trunk) tt) = [].
Proof.
  assert ("trunk-show" ∉ ["trunk-create"; "trunk-delete"; "trunk-modify"])
    as H1.
  { intros H. each_member H. }
  assert ("trunk-show" ≠ "True") as Ht by discriminate.
  assert ("trunk-show" ≠ "False") as Hf by discriminate.
  assert (("pn_command",
           among ["trunk-create"; "trunk-delete"; "trunk-modify"]
             (req (opt TStr))) ∈ Trunk.argument_spec) as H2
    by (unfold Trunk.argument_spec; in_list).
  split; [exact H1|]. split; [exact H2|]. intros Popen.
  exact (proj1 (proj1 (proj1 (value_outside_choices_rejected unit Popen tt)
                         (<["pn_command" := VStr "trunk-show"]>
                            example_delete_trunk)
                         "pn_command"
                         (among ["trunk-create"; "trunk-delete"; "trunk-modify"]
                            (req (opt TStr)))
                         ["trunk-create"; "trunk-delete"; "trunk-modify"]
                         "trunk-show" H1 Ht Hf eq_refl) H2 eq_refl)).
Defined.

(** X12. A task that leaves out any parameter declared [required=True]
    (user name, password, operation or name) is rejected by the
    constructor: the run ends in [fail_json] and no process is started. *)
Theorem missing_required_parameter_rejected :
  ∀ (world : Type) (Popen : list string → world → result completed * world)
    (args : gmap string value) (w : world) k a,
    required a = true →
    ((k, a) ∈ Trunk.argument_spec → args !! k = None →
     popen_calls (Trunk.main Popen args w) = [] ∧
     after (Trunk.main Popen args w) = w ∧
     ∃ msg, ending (Trunk.main Popen args w) = Failed msg) ∧
    ((k, a) ∈ Vlag.argument_spec →
     given Vlag.argument_spec args k = None →
     popen_calls (Vlag.main Popen args w) = [] ∧
     after (Vlag.main Popen args w) = w ∧
     ∃ msg, ending (Vlag.main Popen args w) = Failed msg).
Proof.
  intros world Popen args w k a Hreq. split; intros Hin Hnone.
  - destruct (rejected_required Trunk.argument_spec Trunk.required_if
                args k a Hin Hreq) as [msg Hmsg]; [|done|].
    { apply trunk_no_default. by eapply trunk_required_no_default. }
    rewrite (trunk_main_rejected Popen args w msg Hmsg). eauto.
  - destruct (rejected_required Vlag.argument_spec Vlag.required_if
                args k a Hin Hreq) as [msg Hmsg]; [|done|].
    { apply vlag_no_default. by eapply vlag_required_no_default. }
    rewrite (vlag_main_rejected Popen args w msg Hmsg). eauto.
Qed.

Lemma missing_required_parameter_rejected_witness :
  required (alias ["password"] (req (opt TStr))) = true ∧
  ("pn_clipassword", alias ["password"] (req (opt TStr)))
    ∈ Vlag.argument_spec ∧
  given Vlag.argument_spec (delete "pn_clipassword" example_create_vlag)
    "pn_clipassword" = None ∧
  ∀ Popen : list string → unit → result completed * unit,
    popen_calls
      (Vlag.main Popen (delete "pn_clipassword" example_create_vlag) tt) = [].
Proof.
  assert (("pn_clipassword", alias ["password"] (req (opt TStr)))
            ∈ Vlag.argument_spec) as H2
    by (unfold Vlag.argument_spec; in_list).
  assert (given Vlag.argument_spec
            (delete "pn_clipassword" example_create_vlag)
            "pn_clipassword" = None) as H3 by (vm_compute; reflexivity).
  split; [reflexivity|]. split; [exact H2|]. split; [exact H3|].
  intros Popen.
  exact (proj1 (proj2 (missing_required_parameter_rejected unit Popen
                         (delete "pn_clipassword" example_create_vlag) tt
                         "pn_clipassword" (alias ["password"] (req (opt TStr)))
                         eq_refl) H2 H3)).
Defined.

Lemma create_vlag_checked u pw n port peer :
  AnsibleModule Vlag.argument_spec Vlag.required_if
    (create_vlag_request u pw n port peer)
  = Params (vlag_params (create_vlag_request u pw n port peer)).
Proof. vm_compute. reflexivity. Qed.

Lemma create_vlag_build u pw n port peer :
  port ≠ "" → peer ≠ "" →
  Vlag.build (vlag_params (create_vlag_request u pw n port peer))
  = Ok ("/usr/bin/cli --quiet --user " +:+ u +:+ ":" +:+ pw +:+
        "  vlag-create name " +:+ n +:+ " port " +:+ port +:+
        " peer-port " +:+ peer).
Proof.
  intros Hp Hpp. rewrite vlag_build_table.
  unfold Vlag.switch_clause, Vlag.credentials, Vlag.operation, Vlag.fields.
  cbn [segments]. eval_lookups.
  rewrite (text_field_str _ port Hp), (text_field_str _ peer Hpp). simpl.
  by rewrite !append_assoc, ?append_empty_r.
Qed.

(** X13. A vlag-create task that gives only the credentials, the name and
    the two ports passes the checks, and for a name and ports that are
    shell words the argument vector handed to [Popen] is the executable,
    [--quiet], [--user] and the credential tokens, followed by exactly
    [vlag-create name <name> port <port> peer-port <peer port>]. *)
Theorem vlag_create_name_ports_only :
  ∀ (world : Type) (Popen : list string → world → result completed * world)
    (w : world) (u pw n port peer : string) (up : list string),
    Shlex.split (u +:+ ":" +:+ pw) = Ok up →
    Shlex.word n = true →
    Shlex.word port = true →
    Shlex.word peer = true →
    Vlag.build (vlag_params (create_vlag_request u pw n port peer))
      = Ok ("/usr/bin/cli --quiet --user " +:+ u +:+ ":" +:+ pw +:+
            "  vlag-create name " +:+ n +:+ " port " +:+ port +:+
            " peer-port " +:+ peer) ∧
    popen_calls (Vlag.main Popen (create_vlag_request u pw n port peer) w)
      = [ ["/usr/bin/cli"; "--quiet"; "--user"] ++ up ++
          ["vlag-create"; "name"; n; "port"; port; "peer-port"; peer] ].
Proof.
  intros world Popen w u pw n port peer up Hup Hn Hport Hpeer.
  pose proof (create_vlag_build u pw n port peer
                (word_nonempty _ Hport) (word_nonempty _ Hpeer)) as Hb.
  split; [done|].
  apply (vlag_main_spawns Popen _ w _ _ _
           (create_vlag_checked u pw n port peer) Hb).
  trans (Shlex.split
           (String.concat " "
              ["/usr/bin/cli"; "--quiet"; "--user"; u +:+ ":" +:+ pw; "";
               "vlag-create"; "name"; n; "port"; port; "peer-port"; peer])).
  { f_equal. simpl. by rewrite !append_assoc. }
  rewrite (split_unwords _
             [["/usr/bin/cli"]; ["--quiet"]; ["--user"]; up; [];
              ["vlag-create"]; ["name"]; [n]; ["port"]; [port];
              ["peer-port"]; [peer]]).
  - done.
  - repeat (apply Forall2_cons; split;
            [first [ exact Hup | exact (split_word _ Hn)
                   | exact (split_word _ Hport) | exact (split_word _ Hpeer)
                   | vm_compute; reflexivity ]|]).
    apply Forall2_nil_2.
Qed.

Lemma vlag_create_name_ports_only_witness :
  Shlex.split ("admin" +:+ ":" +:+ "admin") = Ok ["admin:admin"] ∧
  Shlex.word "spine-to-leaf" = true ∧
  Shlex.word "spine01-to-leaf" = true ∧
  Shlex.word "spine02-to-leaf" = true ∧
  ∀ Popen : list string → unit → result completed * unit,
    popen_calls
      (Vlag.main Popen
         (create_vlag_request "admin" "admin" "spine-to-leaf"
            "spine01-to-leaf" "spine02-to-leaf") tt)
      = [ ["/usr/bin/cli"; "--quiet"; "--user"; "admin:admin";
           "vlag-create"; "name"; "spine-to-leaf"; "port"; "spine01-to-leaf";
           "peer-port"; "spine02-to-leaf"] ].
Proof.
  split; [reflexivity|]. split; [reflexivity|]. split; [reflexivity|].
  split; [reflexivity|]. intros Popen.
  exact (proj2 (vlag_create_name_ports_only unit Popen tt
                  "admin" "admin" "spine-to-leaf" "spine01-to-leaf"
                  "spine02-to-leaf" ["admin:admin"]
                  eq_refl eq_refl eq_refl eq_refl)).
Defined.
